(** * coinharness: transaction funding and the RPC connection manager

    A shallow embedding of [CreateTransaction] and [fundTx] (wallet.go)
    and of the retry loop of [RPCConnection.Connect], together with the
    properties the specification states about them.

    Conventions.
    - Go's [int64] (and [int], taken to be 64 bits wide) are integers in
      [Z]; every arithmetic operation of the source is written with its
      two's-complement wrap-around ([Int64.add], [Int64.sub], [Int64.mul]).
    - A call [(v, err) := f(...)] is a [result]: [Ok v] or [Err err].
    - The wallet collaborator is stateful; its state is threaded through
      every call, and each call made to a collaborator is appended to a
      log, so that the calls a run has made can be read back.
    - [pin.Assert...] aborts the run; an aborted run is [Panics tag]. *)

From Stdlib Require Import ZArith List String Bool Lia.
From Stdlib Require Import DecimalString.
Import ListNotations.
Open Scope Z_scope.

(** ** Machine integers *)

Module Int64.

Definition min_int : Z := - 2 ^ 63.
Definition max_int : Z := 2 ^ 63 - 1.

Definition in_range (z : Z) : Prop := min_int <= z <= max_int.

(** Two's-complement reduction of an integer into the 64-bit range. *)
Definition wrap (z : Z) : Z := (z + 2 ^ 63) mod 2 ^ 64 - 2 ^ 63.

Definition add (a b : Z) : Z := wrap (a + b).
Definition sub (a b : Z) : Z := wrap (a - b).
Definition mul (a b : Z) : Z := wrap (a * b).

End Int64.

(** ** Data model *)

(** Go's [error] interface, observed through its message. *)
Inductive error : Type :=
| Errorf (msg : string).

Inductive result (A : Type) : Type :=
| Ok (a : A)
| Err (e : error).
Arguments Ok {A} a.
Arguments Err {A} e.

Inductive exec (A : Type) : Type :=
| Returns (a : A)
| Panics (tag : string).
Arguments Returns {A} a.
Arguments Panics {A} tag.

(** Package [coin]: [Amount] is a struct holding one [int64], [AtomsValue];
    [Copy] returns a fresh struct with the same [AtomsValue]. *)
Module coin.

Record Amount : Type := mkAmount { AtomsValue : Z }.

Definition Copy (a : Amount) : Amount := mkAmount (AtomsValue a).

End coin.

(** Modelled from the spec: the type declarations of [Address], [Hash],
    [OutPoint], [TxIn], [TxOut], [MessageTx] and [Unspent] are not part of
    the files covered here.  The records below carry the fields the source
    reads or writes and those the specification names ("transaction hash +
    index", "tree/location tag", "value", "spending script bytes",
    "previousOutpoint reference"). *)
Definition Address : Type := string.
Bind Scope string_scope with Address.

Inductive Hash : Type :=
| ZeroHash
| HashOf (digest : string).

Record OutPoint : Type := mkOutPoint {
  OutPoint_Hash : Hash;
  OutPoint_Index : Z;
  OutPoint_Tree : Z
}.

Record TxIn : Type := mkTxIn {
  PreviousOutPoint : OutPoint;
  ValueIn : coin.Amount
}.

Record TxOut : Type := mkTxOut {
  Value : coin.Amount;
  PkScript : list Byte.byte
}.

Record MessageTx : Type := mkMessageTx {
  Tx_TxIn : list TxIn;
  Tx_TxOut : list TxOut
}.

Record Unspent : Type := mkUnspent {
  TxID : Hash;
  Vout : Z;
  Tree : Z;
  Account : string;
  Amount : coin.Amount;
  Spendable : bool
}.

(** [CreateTransactionArgs], field for field. *)
Record CreateTransactionArgs : Type := mkCreateTransactionArgs {
  Outputs : list TxOut;
  FeeRate : coin.Amount;
  Change : bool;
  TxVersion : Z;
  PayToAddrScript : Address -> result (list Byte.byte);
  TxSerializeSize : MessageTx -> Z;
  Args_Account : string
}.

(** ** The wallet collaborator *)

(** The two methods of the [Wallet] interface that transaction creation
    calls.  [W] is the wallet's internal state. *)
Class Wallet (W : Type) : Type := {
  ListUnspent : W -> result (list Unspent) * W;
  GetNewAddress : W -> string -> result Address * W
}.

(** One entry per call made to a collaborator, with what it returned. *)
Inductive Call : Type :=
| CallListUnspent (r : result (list Unspent))
| CallGetNewAddress (account : string) (r : result Address)
| CallPayToAddrScript (addr : Address) (r : result (list Byte.byte)).

Record World (W : Type) : Type := mkWorld {
  wallet : W;
  calls : list Call
}.
Arguments mkWorld {W} wallet calls.
Arguments wallet {W} w.
Arguments calls {W} w.

Section Funding.

Context {W : Type} `{Wallet W}.

Definition callListUnspent (st : World W) : result (list Unspent) * World W :=
  let '(r, w') := ListUnspent (wallet st) in
  (r, mkWorld w' (calls st ++ [CallListUnspent r])).

Definition callGetNewAddress (st : World W) (account : string)
  : result Address * World W :=
  let '(r, w') := GetNewAddress (wallet st) account in
  (r, mkWorld w' (calls st ++ [CallGetNewAddress account r])).

Definition callPayToAddrScript (st : World W)
    (payToAddrScript : Address -> result (list Byte.byte)) (addr : Address)
  : result (list Byte.byte) * World W :=
  let r := payToAddrScript addr in
  (r, mkWorld (wallet st) (calls st ++ [CallPayToAddrScript addr r])).

(** ** fundTx *)

(** [spendSize]: "the largest number of bytes of a sigScript which spends
    a p2pkh output: OP_DATA_73 <sig> OP_DATA_33 <pubkey>". *)
Definition spendSize : Z := 1 + 73 + 1 + 33.

(** The struct literal [&TxIn{PreviousOutPoint: OutPoint{Tree: output.Tree},
    ValueIn: output.Amount.Copy()}]; fields that are not named take Go's
    zero value. *)
Definition newTxIn (output : Unspent) : TxIn :=
  {| PreviousOutPoint :=
       {| OutPoint_Hash := ZeroHash;
          OutPoint_Index := 0;
          OutPoint_Tree := Tree output |};
     ValueIn := coin.Copy (Amount output) |}.

(** [tx.TxIn = append(tx.TxIn, txIn)] and [tx.TxOut = append(tx.TxOut, o)]. *)
Definition appendTxIn (tx : MessageTx) (txIn : TxIn) : MessageTx :=
  {| Tx_TxIn := Tx_TxIn tx ++ [txIn]; Tx_TxOut := Tx_TxOut tx |}.

Definition appendTxOut (tx : MessageTx) (txOut : TxOut) : MessageTx :=
  {| Tx_TxIn := Tx_TxIn tx; Tx_TxOut := Tx_TxOut tx ++ [txOut] |}.

(** [txSize := TxSerializeSize(tx) + spendSize*len(tx.TxIn)] *)
Definition txSize (serializeSize : MessageTx -> Z) (tx : MessageTx) : Z :=
  Int64.add (serializeSize tx)
            (Int64.mul spendSize (Z.of_nat (List.length (Tx_TxIn tx)))).

(** [reqFee := coin.Amount{int64(txSize) * feeRate.AtomsValue}] *)
Definition reqFee (serializeSize : MessageTx -> Z) (feeRate : coin.Amount)
    (tx : MessageTx) : coin.Amount :=
  coin.mkAmount (Int64.mul (txSize serializeSize tx) (coin.AtomsValue feeRate)).

(** Lines 251-269: the change output, once the selected coins cover the
    amount and the fee. *)
Definition addChange (st : World W) (account : string) (tx : MessageTx)
    (amtSelected amt fee : coin.Amount)
    (payToAddrScript : Address -> result (list Byte.byte))
  : option error * MessageTx * World W :=
  let changeVal :=
    coin.mkAmount
      (Int64.sub (Int64.sub (coin.AtomsValue amtSelected) (coin.AtomsValue amt))
                 (coin.AtomsValue fee)) in
  if coin.AtomsValue changeVal >? 0 then
    let '(r, st1) := callGetNewAddress st account in
    match r with
    | Err err => (Some err, tx, st1)
    | Ok addr =>
        let '(r', st2) := callPayToAddrScript st1 payToAddrScript addr in
        match r' with
        | Err err => (Some err, tx, st2)
        | Ok pkScript =>
            let changeOutput :=
              {| Value := changeVal; PkScript := pkScript |} in
            (None, appendTxOut tx changeOutput, st2)
        end
    end
  else (None, tx, st).

(** The [for _, output := range unspent] loop, and the statement after it.
    [continue] is the recursive call, [return] ends the recursion. *)
Fixpoint fundTx_loop (st : World W) (account : string)
    (unspent : list Unspent) (tx : MessageTx) (amtSelected : coin.Amount)
    (amt feeRate : coin.Amount)
    (payToAddrScript : Address -> result (list Byte.byte))
    (serializeSize : MessageTx -> Z) {struct unspent}
  : option error * MessageTx * World W :=
  match unspent with
  | [] => (Some (Errorf "not enough funds for coin selection"), tx, st)
  | output :: rest =>
      if negb (Spendable output) then
        fundTx_loop st account rest tx amtSelected amt feeRate
                    payToAddrScript serializeSize
      else if negb (String.eqb (Account output) account) then
        fundTx_loop st account rest tx amtSelected amt feeRate
                    payToAddrScript serializeSize
      else
        let amtSelected :=
          coin.mkAmount (Int64.add (coin.AtomsValue amtSelected)
                              (coin.AtomsValue (Amount output))) in
        let tx := appendTxIn tx (newTxIn output) in
        let fee := reqFee serializeSize feeRate tx in
        let collected :=
          Int64.sub (coin.AtomsValue amtSelected) (coin.AtomsValue fee) in
        if collected <? coin.AtomsValue amt then
          fundTx_loop st account rest tx amtSelected amt feeRate
                      payToAddrScript serializeSize
        else
          addChange st account tx amtSelected amt fee payToAddrScript
  end.

Definition fundTx (st : World W) (account : string)
    (unspent : list Unspent) (tx : MessageTx) (amt feeRate : coin.Amount)
    (payToAddrScript : Address -> result (list Byte.byte))
    (serializeSize : MessageTx -> Z)
  : exec (option error * MessageTx * World W) :=
  (* pin.AssertNotNil on the two function values: a function of the
     embedding is never nil. *)
  if String.eqb account "" then Panics "account"
  else Returns (fundTx_loop st account unspent tx (coin.mkAmount 0) amt feeRate
                            payToAddrScript serializeSize).

(** ** CreateTransaction *)

(** The tally loop: [outputAmt.AtomsValue += output.Value.AtomsValue] and
    [tx.TxOut = append(tx.TxOut, output)] for each requested output. *)
Fixpoint tally (outputs : list TxOut) (tx : MessageTx) (outputAmt : coin.Amount)
  : MessageTx * coin.Amount :=
  match outputs with
  | [] => (tx, outputAmt)
  | output :: rest =>
      tally rest (appendTxOut tx output)
            (coin.mkAmount (Int64.add (coin.AtomsValue outputAmt)
                                 (coin.AtomsValue (Value output))))
  end.

Definition CreateTransaction (st : World W) (args : CreateTransactionArgs)
  : exec (option MessageTx * option error * World W) :=
  let '(r, st1) := callListUnspent st in
  match r with
  | Err err => Returns (None, Some err, st1)
  | Ok unspent =>
      let '(tx, outputAmt) :=
        tally (Outputs args) (mkMessageTx [] []) (coin.mkAmount 0) in
      match fundTx st1 (Args_Account args) unspent tx outputAmt (FeeRate args)
                   (PayToAddrScript args) (TxSerializeSize args) with
      | Panics tag => Panics tag
      | Returns (Some err, _, st2) => Returns (None, Some err, st2)
      | Returns (None, tx', st2) => Returns (Some tx', None, st2)
      end
  end.

End Funding.

(** ** Vocabulary of the specification *)

(** A UTXO can be selected when it is spendable and belongs to the
    requested account. *)
Definition eligible (account : string) (u : Unspent) : bool :=
  Spendable u && String.eqb (Account u) account.

(** The skeleton after the outputs [sel] have been added as inputs, in
    order, and the running total [amtSelected] after them. *)
Definition addInputs (tx : MessageTx) (sel : list Unspent) : MessageTx :=
  fold_left (fun t u => appendTxIn t (newTxIn u)) sel tx.

Definition sumSelected (start : coin.Amount) (sel : list Unspent)
  : coin.Amount :=
  fold_left (fun a u => coin.mkAmount (Int64.add (coin.AtomsValue a)
                                                 (coin.AtomsValue (Amount u))))
            sel start.

(** The test of line 247, taken after the outputs [sel] have been added:
    [collected >= amt]. *)
Definition covers (serializeSize : MessageTx -> Z) (feeRate amt : coin.Amount)
    (tx : MessageTx) (start : coin.Amount) (sel : list Unspent) : bool :=
  negb (Int64.sub
          (coin.AtomsValue (sumSelected start sel))
          (coin.AtomsValue (reqFee serializeSize feeRate (addInputs tx sel)))
        <? coin.AtomsValue amt).

(** [changeVal] of line 253 for the selection [sel]. *)
Definition changeVal (serializeSize : MessageTx -> Z)
    (feeRate amt : coin.Amount) (tx : MessageTx) (start : coin.Amount)
    (sel : list Unspent) : Z :=
  Int64.sub
    (Int64.sub (coin.AtomsValue (sumSelected start sel)) (coin.AtomsValue amt))
    (coin.AtomsValue (reqFee serializeSize feeRate (addInputs tx sel))).

(** [p] is the shortest non-empty prefix of [l] that passes [ok]. *)
Definition first_fit {A : Type} (ok : list A -> bool) (l p : list A) : Prop :=
  (exists q, l = p ++ q) /\ p <> [] /\ ok p = true /\
  forall p' q', p = p' ++ q' -> p' <> [] -> q' <> [] -> ok p' = false.

(** No non-empty prefix of [l] passes [ok]. *)
Definition no_fit {A : Type} (ok : list A -> bool) (l : list A) : Prop :=
  forall p q, l = p ++ q -> p <> [] -> ok p = false.

Definition insufficientFunds : error :=
  Errorf "not enough funds for coin selection".

(** The five ways a run of the loop can end, as a relation between the
    eligible outputs [E] and what the loop returns: the list is exhausted;
    a prefix covers the amount and leaves no change; the address provider
    fails; the script builder fails; a change output is added. *)
Section Runs.

Context {W : Type} `{Wallet W}.

Variables (st : World W) (account : string) (tx : MessageTx)
          (start amt feeRate : coin.Amount)
          (payToAddrScript : Address -> result (list Byte.byte))
          (serializeSize : MessageTx -> Z).

Inductive loop_run (E : list Unspent)
  : option error * MessageTx * World W -> Prop :=
| run_exhausted :
    no_fit (covers serializeSize feeRate amt tx start) E ->
    loop_run E (Some insufficientFunds, addInputs tx E, st)
| run_exact p :
    first_fit (covers serializeSize feeRate amt tx start) E p ->
    changeVal serializeSize feeRate amt tx start p <= 0 ->
    loop_run E (None, addInputs tx p, st)
| run_no_address p err w' :
    first_fit (covers serializeSize feeRate amt tx start) E p ->
    0 < changeVal serializeSize feeRate amt tx start p ->
    GetNewAddress (wallet st) account = (Err err, w') ->
    loop_run E (Some err, addInputs tx p,
                mkWorld w' (calls st ++ [CallGetNewAddress account (Err err)]))
| run_no_script p addr err w' :
    first_fit (covers serializeSize feeRate amt tx start) E p ->
    0 < changeVal serializeSize feeRate amt tx start p ->
    GetNewAddress (wallet st) account = (Ok addr, w') ->
    payToAddrScript addr = Err err ->
    loop_run E (Some err, addInputs tx p,
                mkWorld w' (calls st ++ [CallGetNewAddress account (Ok addr);
                                         CallPayToAddrScript addr (Err err)]))
| run_change p addr pkScript w' :
    first_fit (covers serializeSize feeRate amt tx start) E p ->
    0 < changeVal serializeSize feeRate amt tx start p ->
    GetNewAddress (wallet st) account = (Ok addr, w') ->
    payToAddrScript addr = Ok pkScript ->
    loop_run E
      (None,
       appendTxOut (addInputs tx p)
         {| Value := coin.mkAmount
                       (changeVal serializeSize feeRate amt tx start p);
            PkScript := pkScript |},
       mkWorld w' (calls st ++ [CallGetNewAddress account (Ok addr);
                                CallPayToAddrScript addr (Ok pkScript)])).

End Runs.

(** Sums over the mathematical integers, to state value conservation. *)
Definition Zsum (l : list Z) : Z := fold_right Z.add 0 l.

Definition totalAmount (l : list Unspent) : Z :=
  Zsum (map (fun u => coin.AtomsValue (Amount u)) l).

Definition sumInputs (tx : MessageTx) : Z :=
  Zsum (map (fun i => coin.AtomsValue (ValueIn i)) (Tx_TxIn tx)).

Definition sumOutputs (tx : MessageTx) : Z :=
  Zsum (map (fun o => coin.AtomsValue (Value o)) (Tx_TxOut tx)).

(** [CreateTransaction], given [args], calls [fundTx] with these arguments
    (lines 161-181). *)
Definition passes_to_fundTx (args : CreateTransactionArgs) (account : string)
    (tx : MessageTx) (amt feeRate : coin.Amount)
    (payToAddrScript : Address -> result (list Byte.byte))
    (serializeSize : MessageTx -> Z) : Prop :=
  Args_Account args = account /\
  tally (Outputs args) (mkMessageTx [] []) (coin.mkAmount 0) = (tx, amt) /\
  FeeRate args = feeRate /\
  PayToAddrScript args = payToAddrScript /\
  TxSerializeSize args = serializeSize.

(** The skeleton [CreateTransaction] starts from, and the amount it asks
    [fundTx] to cover when the tally does not overflow. *)
Definition skeleton (args : CreateTransactionArgs) : MessageTx :=
  mkMessageTx [] (Outputs args).

Definition requested (args : CreateTransactionArgs) : Z :=
  Zsum (map (fun o => coin.AtomsValue (Value o)) (Outputs args)).

(** The amount [CreateTransaction] passes to [fundTx]: the tally of the
    requested values in [int64] arithmetic. *)
Definition tallied (args : CreateTransactionArgs) : coin.Amount :=
  snd (tally (Outputs args) (mkMessageTx [] []) (coin.mkAmount 0)).

(** [maxSize] is a worst-case size: it bounds the provisional size
    [TxSerializeSize(tx) + spendSize*len(tx.TxIn)] after every addition of
    an output of [E] to [tx], and sizes are not negative. *)
Definition size_bounded (serializeSize : MessageTx -> Z) (tx : MessageTx)
    (E : list Unspent) (maxSize : Z) : Prop :=
  forall p q, E = p ++ q -> p <> [] ->
    0 <= serializeSize (addInputs tx p) /\
    serializeSize (addInputs tx p)
    + spendSize * Z.of_nat (List.length (Tx_TxIn (addInputs tx p))) <= maxSize.

(** [args] with its [Change] field set to [b], every other field kept. *)
Definition withChange (b : bool) (args : CreateTransactionArgs)
  : CreateTransactionArgs :=
  {| Outputs := Outputs args; FeeRate := FeeRate args; Change := b;
     TxVersion := TxVersion args; PayToAddrScript := PayToAddrScript args;
     TxSerializeSize := TxSerializeSize args;
     Args_Account := Args_Account args |}.

(** Reading the log of collaborator calls. *)
Definition isGetNewAddress (c : Call) : bool :=
  match c with CallGetNewAddress _ _ => true | _ => false end.

Definition addressRequests (log : list Call) : nat :=
  List.length (filter isGetNewAddress log).

(** The change-address provider or the script builder returned [e] in one
    of the calls of [log]. *)
Definition failed_with (e : error) (log : list Call) : Prop :=
  (exists account, In (CallGetNewAddress account (Err e)) log) \/
  (exists addr, In (CallPayToAddrScript addr (Err e)) log).

(** ** A wallet double

    A wallet whose answers are fixed in advance; it counts the addresses it
    has handed out and numbers them. *)
Record StubWallet : Type := mkStubWallet {
  stub_unspent : result (list Unspent);
  stub_address : result Address;
  stub_issued : nat
}.

#[export] Instance StubWallet_Wallet : Wallet StubWallet := {
  ListUnspent w := (stub_unspent w, w);
  GetNewAddress w _ :=
    (stub_address w,
     mkStubWallet (stub_unspent w) (stub_address w) (S (stub_issued w)))
}.

Definition stubWorld (unspent : list Unspent) (address : result Address)
  : World StubWallet :=
  mkWorld (mkStubWallet (Ok unspent) address 0) [].

Definition p2pkh (addr : Address) : result (list Byte.byte) :=
  Ok (list_byte_of_string addr).

Definition brokenScript (_ : Address) : result (list Byte.byte) :=
  Err (Errorf "unsupported address").

Definition utxo (amount : Z) (account : string) (spendable : bool) : Unspent :=
  {| TxID := HashOf "prev"; Vout := 1; Tree := 0; Account := account;
     Amount := coin.mkAmount amount; Spendable := spendable |}.

(** An output that carries a transaction identifier, an index and a tree
    tag of its own. *)
Definition taggedUtxo : Unspent :=
  {| TxID := HashOf "abcd"; Vout := 7; Tree := 1; Account := "default";
     Amount := coin.mkAmount 150000; Spendable := true |}.

Definition payment (value : Z) : TxOut :=
  {| Value := coin.mkAmount value; PkScript := [] |}.

Definition changeCalls : list Call :=
  [CallGetNewAddress "default" (Ok "DsChange"%string);
   CallPayToAddrScript "DsChange" (Ok (list_byte_of_string "DsChange"))].

Definition stubAfter (unspent : list Unspent) (address : result Address)
    (issued : nat) (log : list Call) : World StubWallet :=
  mkWorld (mkStubWallet (Ok unspent) address issued) log.

(** A serializer that reports 200 bytes for every skeleton. *)
Definition size200 (_ : MessageTx) : Z := 200.

Definition request (outputs : list TxOut) (feeRate : Z) (change : bool)
    (script : Address -> result (list Byte.byte)) : CreateTransactionArgs :=
  {| Outputs := outputs; FeeRate := coin.mkAmount feeRate; Change := change;
     TxVersion := 1; PayToAddrScript := script;
     TxSerializeSize := size200; Args_Account := "default" |}.

(** The scenarios of section 8 of the specification, and a list in which
    the second output belongs to another account and the third is not
    spendable. *)
Definition singleUnspent : list Unspent := [utxo 150000 "default" true].

Definition mixedUnspent : list Unspent :=
  [utxo 60000 "default" true; utxo 60000 "other" true;
   utxo 70000 "default" false; utxo 150000 "default" true].

Definition pay (value : Z) : CreateTransactionArgs :=
  request [payment value] 10 true p2pkh.

Definition walletLocked : error := Errorf "wallet is locked".

Definition changeOutput (value : Z) : TxOut :=
  {| Value := coin.mkAmount value;
     PkScript := list_byte_of_string "DsChange" |}.

(** The skeletons these scenarios end with. *)
Definition singleFunded : MessageTx :=
  {| Tx_TxIn := [newTxIn (utxo 150000 "default" true)];
     Tx_TxOut := [payment 100000; changeOutput 46920] |}.

Definition mixedFunded : MessageTx :=
  {| Tx_TxIn := [newTxIn (utxo 60000 "default" true);
                 newTxIn (utxo 150000 "default" true)];
     Tx_TxOut := [payment 100000; changeOutput 105840] |}.

(** ** The RPC connection manager *)

Module RPC.

(** Modelled from the spec: [RPCConnection], its [Connect] and
    [IsConnected], the connection configuration and the client factory
    are not part of the files covered here, which only build
    [&RPCConnection{MaxConnRetries: 20, RPCClientFactory: ...}] and call
    [Connect(cfg, nil)], [IsConnected()] and [Disconnect()].  The model
    follows section 4.2: a connection is [Disconnected] or [Connected];
    [Connect] on a connected one is a caller error; otherwise it asks the
    factory for a client, retries up to [MaxConnRetries] times when the
    factory fails, and after the last retry fails with a
    connection-establishment error that holds the last underlying error; on
    success it stores the handle and becomes [Connected].  The delay between
    attempts is outside the model.  [MaxConnRetries] is a count. *)
Record RPCConnectionConfig : Type := mkRPCConnectionConfig {
  Host : string;
  Endpoint : string;
  User : string;
  Pass : string;
  CertificateFile : string
}.

Definition RPCClient : Type := string.

Definition NotificationHandlers : Type := option string.

Inductive State : Type :=
| Disconnected
| Connected.

Inductive ConnectError : Type :=
| InvalidState
| ConnectionEstablishmentFailure (cause : error).

(** The client factory is stateful: an attempt may fail now and succeed
    later.  [F] is its state. *)
Class RPCClientFactory (F : Type) : Type := {
  NewRPCConnection :
    F -> RPCConnectionConfig -> NotificationHandlers -> result RPCClient * F
}.

Record RPCConnection (F : Type) : Type := mkRPCConnection {
  MaxConnRetries : nat;
  factory : F;
  rpcClient : option RPCClient;
  state : State
}.
Arguments mkRPCConnection {F} MaxConnRetries factory rpcClient state.
Arguments MaxConnRetries {F} r.
Arguments factory {F} r.
Arguments rpcClient {F} r.
Arguments state {F} r.

Section Connection.

Context {F : Type} `{RPCClientFactory F}.

(** One attempt, then up to [retries] further ones while the factory
    fails; the error kept is the one of the last attempt. *)
Fixpoint attempt (retries : nat) (f : F) (cfg : RPCConnectionConfig)
    (handlers : NotificationHandlers) : result RPCClient * F :=
  match NewRPCConnection f cfg handlers with
  | (Ok client, f') => (Ok client, f')
  | (Err e, f') =>
      match retries with
      | O => (Err e, f')
      | S n => attempt n f' cfg handlers
      end
  end.

Definition Connect (conn : RPCConnection F) (cfg : RPCConnectionConfig)
    (handlers : NotificationHandlers)
  : option ConnectError * RPCConnection F :=
  match state conn with
  | Connected => (Some InvalidState, conn)
  | Disconnected =>
      match attempt (MaxConnRetries conn) (factory conn) cfg handlers with
      | (Ok client, f') =>
          (None, mkRPCConnection (MaxConnRetries conn) f' (Some client)
                                 Connected)
      | (Err e, f') =>
          (Some (ConnectionEstablishmentFailure e),
           mkRPCConnection (MaxConnRetries conn) f' (rpcClient conn)
                           Disconnected)
      end
  end.

Definition IsConnected (conn : RPCConnection F) : bool :=
  match state conn with
  | Connected => true
  | Disconnected => false
  end.

(** From state [f], the factory fails with the errors [errs], one per
    attempt and in this order, and then hands out [client]. *)
Inductive fails_then_succeeds (cfg : RPCConnectionConfig)
    (handlers : NotificationHandlers)
  : F -> list error -> RPCClient -> Prop :=
| succeeds_now f client f' :
    NewRPCConnection f cfg handlers = (Ok client, f') ->
    fails_then_succeeds cfg handlers f [] client
| fails_first f e f' errs client :
    NewRPCConnection f cfg handlers = (Err e, f') ->
    fails_then_succeeds cfg handlers f' errs client ->
    fails_then_succeeds cfg handlers f (e :: errs) client.

End Connection.

(** A factory double: it fails with each error of its list in turn, then
    hands out a client. *)
Definition Flaky : Type := list error.

#[global] Instance Flaky_Factory : RPCClientFactory Flaky := {
  NewRPCConnection f _ _ :=
    match f with
    | [] => (Ok "client"%string, [])
    | e :: rest => (Err e, rest)
    end
}.

Definition localhost : RPCConnectionConfig :=
  mkRPCConnectionConfig "127.0.0.1:19556" "ws" "user" "pass" "rpc.cert".

Definition threeRefusals : Flaky :=
  [Errorf "refused 1"; Errorf "refused 2"; Errorf "refused 3"].

End RPC.

(** ** Waiting for the wallet to sync *)

Module consolewallet.

(** [ConsoleWallet.Sync] and [ConsoleWallet.SyncedHeight].  The RPC client
    behind [wallet.rPCClient.Connection()] is a stateful collaborator, of
    which [GetBestBlock], returning (hash, height, err), is the one method
    these two call; [C] is its state.  [pin.CheckTestSetupMalfunction(err)]
    aborts the run when [err] is not nil.  Sleeping and printing are
    recorded as events, next to the calls of [GetBestBlock]. *)
Class RPCClient (C : Type) : Type := {
  GetBestBlock : C -> result (Hash * Z) * C
}.

Inductive Event : Type :=
| EvGetBestBlock (r : result (Hash * Z))
| EvSleep (ms : Z)
| EvPrintln (line : string).

Record Session (C : Type) : Type := mkSession {
  client : C;
  events : list Event
}.
Arguments mkSession {C} client events.
Arguments client {C} s.
Arguments events {C} s.

(** [strconv.FormatInt(i, 10)]: the decimal digits of [i], with a minus
    sign when it is negative. *)
Definition FormatInt (i : Z) : string := NilZero.string_of_int (Z.to_int i).

Section Syncing.

Context {C : Type} `{RPCClient C}.

Definition record (e : Event) (s : Session C) : Session C :=
  mkSession (client s) (events s ++ [e]).

Definition SyncedHeight (s : Session C) : exec Z * Session C :=
  let '(r, c') := GetBestBlock (client s) in
  let s' := mkSession c' (events s ++ [EvGetBestBlock r]) in
  match r with
  | Err (Errorf msg) => (Panics msg, s')
  | Ok (_, h) => (Returns h, s')
  end.

(** The loop of [Sync] need not end; [fuel] bounds the number of rounds,
    and [None] says that the bound was reached. *)
Fixpoint Sync (fuel : nat) (s : Session C) (desiredHeight : Z)
  : option (exec Z * Session C) :=
  match SyncedHeight s with
  | (Panics msg, s1) => Some (Panics msg, s1)
  | (Returns h, s1) =>
      if h <? desiredHeight then
        match fuel with
        | O => None
        | S fuel' =>
            let s2 := record (EvSleep 1000) s1 in
            match SyncedHeight s2 with
            | (Panics msg, s3) => Some (Panics msg, s3)
            | (Returns count, s3) =>
                let s4 :=
                  record (EvPrintln (String.append "   sync to: "
                                                   (FormatInt count))) s3 in
                Sync fuel' s4 desiredHeight
            end
        end
      else Some (SyncedHeight s1)
  end.

(** From state [c], successive calls of [GetBestBlock] succeed with the
    blocks [bs], in this order, and leave the client in state [c']. *)
Inductive reads : C -> list (Hash * Z) -> C -> Prop :=
| reads_nil c : reads c [] c
| reads_cons c b c1 bs c' :
    GetBestBlock c = (Ok b, c1) ->
    reads c1 bs c' ->
    reads c (b :: bs) c'.

(** Heights that never go down. *)
Fixpoint ascending (from : Z) (hs : list Z) : Prop :=
  match hs with
  | [] => True
  | h :: rest => from <= h /\ ascending h rest
  end.

(** Whatever the client reports from state [c] on, no height is smaller
    than the height [from] or than a height reported before it. *)
Definition nondecreasing (from : Z) (c : C) : Prop :=
  forall bs c', reads c bs c' -> ascending from (map snd bs).

(** What one round of waiting leaves in the log: the height tested, the
    sleep, the height printed and the line. *)
Definition roundEvents (w : (Hash * Z) * (Hash * Z)) : list Event :=
  [EvGetBestBlock (Ok (fst w)); EvSleep 1000; EvGetBestBlock (Ok (snd w));
   EvPrintln (String.append "   sync to: " (FormatInt (snd (snd w))))].

End Syncing.

(** A client double whose chain grows by one block with every call. *)
Definition Growing : Type := Z.

#[global] Instance Growing_RPCClient : RPCClient Growing := {
  GetBestBlock height := (Ok (HashOf "tip", height), height + 1)
}.

(** A client double that reports the heights of a list in turn, then
    fails. *)
Definition Scripted : Type := list Z.

#[global] Instance Scripted_RPCClient : RPCClient Scripted := {
  GetBestBlock heights :=
    match heights with
    | h :: rest => (Ok (HashOf "tip", h), rest)
    | [] => (Err (Errorf "connection closed"), [])
    end
}.

End consolewallet.

(** * Properties *)

(** ** Machine-integer facts *)

Lemma wrap_in_range (z : Z) : Int64.in_range (Int64.wrap z).
Proof.
  unfold Int64.in_range, Int64.wrap, Int64.min_int, Int64.max_int.
  pose proof (Z.mod_pos_bound (z + 2 ^ 63) (2 ^ 64) ltac:(lia)). lia.
Qed.

Lemma wrap_small (z : Z) : Int64.in_range z -> Int64.wrap z = z.
Proof.
  unfold Int64.in_range, Int64.wrap, Int64.min_int, Int64.max_int. intros Hz.
  rewrite Z.mod_small by lia. lia.
Qed.


Section FundingTheory.

Context {W : Type} `{Wallet W}.

Variables (st : World W) (account : string) (amt feeRate : coin.Amount)
          (payToAddrScript : Address -> result (list Byte.byte))
          (serializeSize : MessageTx -> Z).

Lemma covers_cons tx start u sel :
  covers serializeSize feeRate amt tx start (u :: sel) =
  covers serializeSize feeRate amt (appendTxIn tx (newTxIn u))
         (coin.mkAmount (Int64.add (coin.AtomsValue start)
                                   (coin.AtomsValue (Amount u)))) sel.
Proof. reflexivity. Qed.

Lemma fundTx_loop_skip u rest tx start :
  eligible account u = false ->
  fundTx_loop st account (u :: rest) tx start amt feeRate
              payToAddrScript serializeSize =
  fundTx_loop st account rest tx start amt feeRate
              payToAddrScript serializeSize.
Proof.
  unfold eligible. cbn [fundTx_loop].
  destruct (Spendable u); cbn [negb andb]; [|reflexivity].
  intros ->. reflexivity.
Qed.

Lemma fundTx_loop_take u rest tx start :
  eligible account u = true ->
  fundTx_loop st account (u :: rest) tx start amt feeRate
              payToAddrScript serializeSize =
  if covers serializeSize feeRate amt tx start [u]
  then addChange st account (addInputs tx [u]) (sumSelected start [u]) amt
                 (reqFee serializeSize feeRate (addInputs tx [u]))
                 payToAddrScript
  else fundTx_loop st account rest (addInputs tx [u]) (sumSelected start [u])
                   amt feeRate payToAddrScript serializeSize.
Proof.
  unfold eligible, covers. cbn [fundTx_loop addInputs sumSelected fold_left].
  destruct (Spendable u); cbn [negb andb]; [|discriminate].
  intros ->. cbn [negb].
  destruct (_ <? _); reflexivity.
Qed.

(** The loop either stops at the shortest covering prefix of the eligible
    outputs and hands over to the change block, or runs through all of
    them and reports insufficient funds. *)
Lemma fundTx_loop_inv unspent : forall tx start,
  (exists p,
     first_fit (covers serializeSize feeRate amt tx start)
               (filter (eligible account) unspent) p /\
     fundTx_loop st account unspent tx start amt feeRate
                 payToAddrScript serializeSize =
     addChange st account (addInputs tx p) (sumSelected start p) amt
               (reqFee serializeSize feeRate (addInputs tx p)) payToAddrScript)
  \/ (no_fit (covers serializeSize feeRate amt tx start)
              (filter (eligible account) unspent) /\
      fundTx_loop st account unspent tx start amt feeRate
                  payToAddrScript serializeSize =
      (Some insufficientFunds,
       addInputs tx (filter (eligible account) unspent), st)).
Proof.
  induction unspent as [|u rest IH]; intros tx start.
  - right. split; [|reflexivity].
    intros p q Hpq Hp. destruct p; [congruence|discriminate].
  - cbn [filter]. destruct (eligible account u) eqn:Hel.
    2:{ rewrite fundTx_loop_skip by exact Hel. apply IH. }
    rewrite fundTx_loop_take by exact Hel.
    destruct (covers serializeSize feeRate amt tx start [u]) eqn:Hu.
    + left. exists [u]. split; [|reflexivity].
      split; [exists (filter (eligible account) rest); reflexivity|].
      split; [discriminate|]. split; [exact Hu|].
      intros p' q' Heq Hp' Hq'.
      destruct p' as [|v p']; [congruence|]. cbn in Heq.
      injection Heq as _ Heq. destruct p'; destruct q'; try discriminate; congruence.
    + destruct (IH (addInputs tx [u]) (sumSelected start [u]))
        as [(p & Hff & Hrun) | (Hno & Hrun)].
      * destruct Hff as ([q Hq] & Hp & Hok & Hmin).
        left. exists (u :: p). split; [|exact Hrun].
        split; [exists q; cbn; now rewrite Hq|].
        split; [discriminate|]. split; [exact Hok|].
        intros p' q' Heq Hp' Hq'.
        destruct p' as [|v p']; [congruence|]. cbn in Heq.
        injection Heq as <- Heq.
        destruct p' as [|v' p'']; [exact Hu|].
        rewrite covers_cons. apply (Hmin _ q'); [exact Heq|discriminate|exact Hq'].
      * right. split; [|exact Hrun].
        intros p q Heq Hp.
        destruct p as [|v p]; [congruence|]. cbn in Heq.
        injection Heq as <- Heq.
        destruct p as [|v' p']; [exact Hu|].
        rewrite covers_cons. apply (Hno _ q); [exact Heq|discriminate].
Qed.

End FundingTheory.

(** ** Shape of the skeleton *)

Lemma addInputs_TxIn sel : forall tx,
  Tx_TxIn (addInputs tx sel) = Tx_TxIn tx ++ map newTxIn sel.
Proof.
  induction sel as [|u sel IH]; intros tx; cbn [addInputs fold_left map].
  - now rewrite app_nil_r.
  - fold (addInputs (appendTxIn tx (newTxIn u)) sel). rewrite IH.
    cbn [appendTxIn Tx_TxIn]. now rewrite <- app_assoc.
Qed.

Lemma addInputs_TxOut sel : forall tx,
  Tx_TxOut (addInputs tx sel) = Tx_TxOut tx.
Proof.
  induction sel as [|u sel IH]; intros tx; cbn [addInputs fold_left].
  - reflexivity.
  - fold (addInputs (appendTxIn tx (newTxIn u)) sel). now rewrite IH.
Qed.

Lemma eligible_true account u :
  eligible account u = true <-> Spendable u = true /\ Account u = account.
Proof.
  unfold eligible. rewrite andb_true_iff, String.eqb_eq. tauto.
Qed.

Lemma prefix_of_filter_eligible account unspent sel q :
  filter (eligible account) unspent = sel ++ q ->
  Forall (fun u => In u unspent /\ Spendable u = true /\ Account u = account)
         sel.
Proof.
  intros Heq. apply Forall_forall. intros u Hu.
  assert (Hin : In u (filter (eligible account) unspent))
    by (rewrite Heq; apply in_or_app; now left).
  apply filter_In in Hin. destruct Hin as [Hin Hel].
  apply eligible_true in Hel. tauto.
Qed.

Section ChangeBlock.

Context {W : Type} `{Wallet W}.

Variables (st : World W) (account : string) (tx : MessageTx)
          (amtSelected amt fee : coin.Amount)
          (payToAddrScript : Address -> result (list Byte.byte)).

(** What the change block returns, case by case. *)
Lemma addChange_none :
  Int64.sub (Int64.sub (coin.AtomsValue amtSelected) (coin.AtomsValue amt))
            (coin.AtomsValue fee) <= 0 ->
  addChange st account tx amtSelected amt fee payToAddrScript = (None, tx, st).
Proof.
  intros Hc. unfold addChange. cbn [coin.AtomsValue].
  destruct (_ >? 0) eqn:E; [|reflexivity].
  rewrite Z.gtb_ltb in E. apply Z.ltb_lt in E. lia.
Qed.

Lemma addChange_some :
  0 < Int64.sub (Int64.sub (coin.AtomsValue amtSelected) (coin.AtomsValue amt))
                (coin.AtomsValue fee) ->
  addChange st account tx amtSelected amt fee payToAddrScript =
  match GetNewAddress (wallet st) account with
  | (Err err, w') =>
      (Some err, tx,
       mkWorld w' (calls st ++ [CallGetNewAddress account (Err err)]))
  | (Ok addr, w') =>
      let log := calls st ++ [CallGetNewAddress account (Ok addr)]
                          ++ [CallPayToAddrScript addr (payToAddrScript addr)] in
      match payToAddrScript addr with
      | Err err => (Some err, tx, mkWorld w' log)
      | Ok pkScript =>
          (None,
           appendTxOut tx
             {| Value :=
                  coin.mkAmount
                    (Int64.sub (Int64.sub (coin.AtomsValue amtSelected)
                                          (coin.AtomsValue amt))
                               (coin.AtomsValue fee));
                PkScript := pkScript |},
           mkWorld w' log)
      end
  end.
Proof.
  intros Hc. unfold addChange. cbn [coin.AtomsValue].
  destruct (_ >? 0) eqn:E.
  2:{ rewrite Z.gtb_ltb in E. apply Z.ltb_ge in E. lia. }
  unfold callGetNewAddress, callPayToAddrScript.
  destruct (GetNewAddress (wallet st) account) as [[addr|err] w'];
    cbn [wallet calls]; [|reflexivity].
  rewrite <- app_assoc.
  destruct (payToAddrScript addr); reflexivity.
Qed.

End ChangeBlock.

(** Every run of the loop ends in one of the five ways. *)
Lemma fundTx_loop_run {W : Type} `{Wallet W} (st : World W) (account : string)
    (unspent : list Unspent) (tx : MessageTx) (start amt feeRate : coin.Amount)
    (payToAddrScript : Address -> result (list Byte.byte))
    (serializeSize : MessageTx -> Z) :
  loop_run st account tx start amt feeRate payToAddrScript serializeSize
           (filter (eligible account) unspent)
           (fundTx_loop st account unspent tx start amt feeRate
                        payToAddrScript serializeSize).
Proof.
  destruct (fundTx_loop_inv st account amt feeRate payToAddrScript
              serializeSize unspent tx start)
    as [(p & Hff & Hrun) | (Hno & Hrun)]; rewrite Hrun.
  2:{ now apply run_exhausted. }
  destruct (Z_lt_le_dec 0 (changeVal serializeSize feeRate amt tx start p))
    as [Hpos | Hle].
  2:{ rewrite addChange_none by exact Hle. now apply run_exact. }
  rewrite addChange_some by exact Hpos.
  destruct (GetNewAddress (wallet st) account) as [[addr|err] w'] eqn:Hget.
  2:{ now apply run_no_address. }
  cbn zeta. destruct (payToAddrScript addr) as [pkScript|err] eqn:Hscript.
  - eapply run_change; eassumption.
  - eapply run_no_script; eassumption.
Qed.

(** ** Which outputs become inputs *)

Section Selection.

Context {W : Type} `{Wallet W}.

Variables (st : World W) (account : string) (amt feeRate : coin.Amount)
          (payToAddrScript : Address -> result (list Byte.byte))
          (serializeSize : MessageTx -> Z).

Lemma addChange_TxIn tx amtSelected fee :
  Tx_TxIn (snd (fst (addChange st account tx amtSelected amt fee
                               payToAddrScript))) = Tx_TxIn tx.
Proof.
  unfold addChange, callGetNewAddress, callPayToAddrScript.
  destruct (_ >? 0); [|reflexivity].
  destruct (GetNewAddress (wallet st) account) as [[addr|err] w'];
    [|reflexivity].
  destruct (payToAddrScript addr); reflexivity.
Qed.

(** Whatever the loop returns, the inputs it has added are those of a
    prefix of the eligible outputs, in their order. *)
Lemma fundTx_loop_inputs unspent tx start :
  exists sel q,
    filter (eligible account) unspent = sel ++ q /\
    Tx_TxIn (snd (fst (fundTx_loop st account unspent tx start amt feeRate
                                   payToAddrScript serializeSize)))
    = Tx_TxIn tx ++ map newTxIn sel.
Proof.
  destruct (fundTx_loop_inv st account amt feeRate payToAddrScript
              serializeSize unspent tx start)
    as [(p & Hff & Hrun) | (_ & Hrun)]; rewrite Hrun.
  - destruct Hff as ([q Hq] & _). exists p, q. split; [exact Hq|].
    rewrite addChange_TxIn. apply addInputs_TxIn.
  - exists (filter (eligible account) unspent), []. split.
    + now rewrite app_nil_r.
    + cbn [fst snd]. apply addInputs_TxIn.
Qed.

End Selection.

(** C3. Every input that [fundTx] appends to the skeleton is built from an
    output of the given list that is spendable and belongs to the requested
    account: the appended inputs are those of a prefix of the eligible
    outputs, so no other output is ever selected. *)
Theorem fundTx_selects_only_eligible {W : Type} `{Wallet W}
    (st : World W) (account : string) (unspent : list Unspent)
    (tx : MessageTx) (amt feeRate : coin.Amount)
    (payToAddrScript : Address -> result (list Byte.byte))
    (serializeSize : MessageTx -> Z) :
  match fundTx st account unspent tx amt feeRate payToAddrScript
               serializeSize with
  | Panics _ => True
  | Returns (_, tx', _) =>
      exists sel,
        Tx_TxIn tx' = Tx_TxIn tx ++ map newTxIn sel /\
        (exists q, filter (eligible account) unspent = sel ++ q) /\
        Forall (fun u => In u unspent /\ Spendable u = true /\
                         Account u = account) sel
  end.
Proof.
  unfold fundTx. destruct (String.eqb account ""); [exact I|].
  destruct (fundTx_loop_inputs st account amt feeRate payToAddrScript
              serializeSize unspent tx (coin.mkAmount 0))
    as (sel & q & Hq & Hin).
  destruct (fundTx_loop _ _ _ _ _ _ _ _ _) as [[r tx'] st'].
  exists sel. split; [exact Hin|]. split; [now exists q|].
  eapply prefix_of_filter_eligible; exact Hq.
Qed.

(** C8. The inputs [fundTx] appends are built from the outputs it selects,
    one input per selected output and in their order, where the selected
    outputs are the shortest covering prefix of the eligible outputs, or all
    the eligible outputs when none covers.  Each input copies the tree tag
    of its output into the previous outpoint, whose hash and index stay at
    their zero values whatever the output's own transaction identifier and
    index are, and copies the output's amount into [ValueIn].  The run only
    aborts on an empty account. *)
Theorem fundTx_input_fields {W : Type} `{Wallet W}
    (st : World W) (account : string) (unspent : list Unspent)
    (tx : MessageTx) (amt feeRate : coin.Amount)
    (payToAddrScript : Address -> result (list Byte.byte))
    (serializeSize : MessageTx -> Z) :
  match fundTx st account unspent tx amt feeRate payToAddrScript
               serializeSize with
  | Panics _ => account = ""%string
  | Returns (_, tx', _) =>
      exists sel added,
        (first_fit (covers serializeSize feeRate amt tx (coin.mkAmount 0))
                   (filter (eligible account) unspent) sel \/
         (no_fit (covers serializeSize feeRate amt tx (coin.mkAmount 0))
                 (filter (eligible account) unspent) /\
          sel = filter (eligible account) unspent)) /\
        (exists q, filter (eligible account) unspent = sel ++ q) /\
        Tx_TxIn tx' = Tx_TxIn tx ++ added /\
        Forall2 (fun u txIn =>
                   PreviousOutPoint txIn =
                     {| OutPoint_Hash := ZeroHash; OutPoint_Index := 0;
                        OutPoint_Tree := Tree u |} /\
                   ValueIn txIn = Amount u)
                sel added
  end.
Proof.
  unfold fundTx. destruct (String.eqb account "") eqn:Hacc;
    [now apply String.eqb_eq|].
  assert (Hfields : forall sel,
            Forall2 (fun u txIn =>
                       PreviousOutPoint txIn =
                         {| OutPoint_Hash := ZeroHash; OutPoint_Index := 0;
                            OutPoint_Tree := Tree u |} /\
                       ValueIn txIn = Amount u)
                    sel (map newTxIn sel)).
  { induction sel as [|u sel IH]; cbn [map]; constructor; [|exact IH].
    split; [reflexivity|]. cbn. now destruct (Amount u). }
  destruct (fundTx_loop_inv st account amt feeRate payToAddrScript
              serializeSize unspent tx (coin.mkAmount 0))
    as [(p & Hff & Hrun) | (Hno & Hrun)].
  - pose proof (addChange_TxIn st account amt payToAddrScript
                  (addInputs tx p) (sumSelected (coin.mkAmount 0) p)
                  (reqFee serializeSize feeRate (addInputs tx p))) as Hin.
    rewrite <- Hrun in Hin.
    destruct (fundTx_loop _ _ _ _ _ _ _ _ _) as [[r tx'] st'].
    cbn [fst snd] in Hin.
    exists p, (map newTxIn p). split; [now left|].
    split; [exact (proj1 Hff)|].
    split; [rewrite Hin; apply addInputs_TxIn|apply Hfields].
  - rewrite Hrun.
    exists (filter (eligible account) unspent),
           (map newTxIn (filter (eligible account) unspent)).
    split; [right; now split|].
    split; [exists []; now rewrite app_nil_r|].
    split; [apply addInputs_TxIn|apply Hfields].
Qed.

(** ** First fit *)

Lemma first_fit_unique {A : Type} (ok : list A -> bool) (l p p' : list A) :
  first_fit ok l p -> first_fit ok l p' -> p = p'.
Proof.
  intros ([q Hq] & Hp & Hok & Hmin) ([q' Hq'] & Hp' & Hok' & Hmin').
  rewrite Hq in Hq'. apply app_eq_app in Hq'.
  destruct Hq' as [r [[Hr _] | [Hr _]]].
  - destruct r as [|a r]; [now rewrite app_nil_r in Hr|].
    rewrite (Hmin p' (a :: r)) in Hok'; [discriminate|exact Hr|exact Hp'|].
    discriminate.
  - destruct r as [|a r]; [now rewrite app_nil_r in Hr|].
    rewrite (Hmin' p (a :: r)) in Hok; [discriminate|exact Hr|exact Hp|].
    discriminate.
Qed.

Lemma first_fit_not_no_fit {A : Type} (ok : list A -> bool) (l p : list A) :
  first_fit ok l p -> no_fit ok l -> False.
Proof.
  intros ([q Hq] & Hp & Hok & _) Hno.
  rewrite (Hno p q Hq Hp) in Hok. discriminate.
Qed.

Lemma fundTx_returns {W : Type} `{Wallet W} (st : World W) (account : string)
    (unspent : list Unspent) (tx : MessageTx) (amt feeRate : coin.Amount)
    (payToAddrScript : Address -> result (list Byte.byte))
    (serializeSize : MessageTx -> Z) out :
  fundTx st account unspent tx amt feeRate payToAddrScript serializeSize
  = Returns out ->
  account <> ""%string /\
  loop_run st account tx (coin.mkAmount 0) amt feeRate payToAddrScript
           serializeSize (filter (eligible account) unspent) out.
Proof.
  unfold fundTx. destruct (String.eqb account "") eqn:E; [discriminate|].
  intros [= <-]. split.
  - now apply String.eqb_neq.
  - apply fundTx_loop_run.
Qed.

Lemma fundTx_nonempty_account {W : Type} `{Wallet W} (st : World W)
    (account : string) (unspent : list Unspent) (tx : MessageTx)
    (amt feeRate : coin.Amount)
    (payToAddrScript : Address -> result (list Byte.byte))
    (serializeSize : MessageTx -> Z) :
  account <> ""%string ->
  fundTx st account unspent tx amt feeRate payToAddrScript serializeSize
  = Returns (fundTx_loop st account unspent tx (coin.mkAmount 0) amt feeRate
                         payToAddrScript serializeSize).
Proof.
  intros Hacc. unfold fundTx. apply String.eqb_neq in Hacc. now rewrite Hacc.
Qed.

(** [CreateTransaction] hands the listed outputs to [fundTx] and returns
    the skeleton only when [fundTx] returns no error. *)
Lemma CreateTransaction_via_fundTx {W : Type} `{Wallet W} (st0 st : World W)
    (args : CreateTransactionArgs) (account : string)
    (unspent : list Unspent) (tx : MessageTx) (amt feeRate : coin.Amount)
    (payToAddrScript : Address -> result (list Byte.byte))
    (serializeSize : MessageTx -> Z) :
  callListUnspent st0 = (Ok unspent, st) ->
  passes_to_fundTx args account tx amt feeRate payToAddrScript serializeSize ->
  CreateTransaction st0 args =
  match fundTx st account unspent tx amt feeRate payToAddrScript
               serializeSize with
  | Panics tag => Panics tag
  | Returns (Some err, _, st2) => Returns (None, Some err, st2)
  | Returns (None, tx', st2) => Returns (Some tx', None, st2)
  end.
Proof.
  intros Hlist (<- & Htally & <- & <- & <-).
  unfold CreateTransaction. rewrite Hlist, Htally. reflexivity.
Qed.

(** C5. Selection is first fit over the list as given.  When [fundTx]
    returns, the inputs it has added are exactly the outputs of the shortest
    non-empty prefix of the eligible outputs for which
    [selected - requiredFee >= target], in list order; a successful skeleton
    always stems from such a prefix. *)
Theorem fundTx_first_fit {W : Type} `{Wallet W}
    (st : World W) (account : string) (unspent : list Unspent)
    (tx : MessageTx) (amt feeRate : coin.Amount)
    (payToAddrScript : Address -> result (list Byte.byte))
    (serializeSize : MessageTx -> Z)
    (r : option error) (tx' : MessageTx) (st' : World W) :
  fundTx st account unspent tx amt feeRate payToAddrScript serializeSize
  = Returns (r, tx', st') ->
  (r = None ->
   exists p,
     first_fit (covers serializeSize feeRate amt tx (coin.mkAmount 0))
               (filter (eligible account) unspent) p /\
     Tx_TxIn tx' = Tx_TxIn tx ++ map newTxIn p) /\
  (forall p,
     first_fit (covers serializeSize feeRate amt tx (coin.mkAmount 0))
               (filter (eligible account) unspent) p ->
     Tx_TxIn tx' = Tx_TxIn tx ++ map newTxIn p).
Proof.
  intros Hrun. apply fundTx_returns in Hrun. destruct Hrun as [_ Hrun].
  inversion Hrun as [Hno | p Hff Hc | p err w' Hff Hc Hget
                     | p addr err w' Hff Hc Hget Hscr
                     | p addr pk w' Hff Hc Hget Hscr]; subst.
  - split; [discriminate|].
    intros p Hff. destruct (first_fit_not_no_fit _ _ _ Hff Hno).
  - split.
    + intros _. exists p. split; [exact Hff|]. apply addInputs_TxIn.
    + intros p0 Hff0. rewrite (first_fit_unique _ _ _ _ Hff0 Hff).
      apply addInputs_TxIn.
  - split; [discriminate|].
    intros p0 Hff0. rewrite (first_fit_unique _ _ _ _ Hff0 Hff).
    apply addInputs_TxIn.
  - split; [discriminate|].
    intros p0 Hff0. rewrite (first_fit_unique _ _ _ _ Hff0 Hff).
    apply addInputs_TxIn.
  - split.
    + intros _. exists p. split; [exact Hff|]. apply addInputs_TxIn.
    + intros p0 Hff0. rewrite (first_fit_unique _ _ _ _ Hff0 Hff).
      apply addInputs_TxIn.
Qed.

(** C2. When no non-empty prefix of the eligible outputs reaches the
    target, that is, the list is exhausted with
    [selected - requiredFee < target] after every addition, [fundTx] returns
    the insufficient-funds error, without consulting a collaborator, and
    [CreateTransaction] returns that error and no skeleton. *)
Theorem fundTx_insufficient_funds {W : Type} `{Wallet W}
    (st : World W) (account : string) (unspent : list Unspent)
    (tx : MessageTx) (amt feeRate : coin.Amount)
    (payToAddrScript : Address -> result (list Byte.byte))
    (serializeSize : MessageTx -> Z) :
  account <> ""%string ->
  no_fit (covers serializeSize feeRate amt tx (coin.mkAmount 0))
         (filter (eligible account) unspent) ->
  fundTx st account unspent tx amt feeRate payToAddrScript serializeSize
  = Returns (Some (Errorf "not enough funds for coin selection"),
             addInputs tx (filter (eligible account) unspent), st) /\
  forall st0 args,
    callListUnspent st0 = (Ok unspent, st) ->
    passes_to_fundTx args account tx amt feeRate payToAddrScript
                     serializeSize ->
    CreateTransaction st0 args
    = Returns (None, Some (Errorf "not enough funds for coin selection"), st).
Proof.
  intros Hacc Hno.
  assert (Hf : fundTx st account unspent tx amt feeRate payToAddrScript
                 serializeSize
               = Returns (Some insufficientFunds,
                          addInputs tx (filter (eligible account) unspent), st)).
  { rewrite fundTx_nonempty_account by exact Hacc. f_equal.
    pose proof (fundTx_loop_run st account unspent tx (coin.mkAmount 0) amt
                  feeRate payToAddrScript serializeSize) as Hrun.
    inversion Hrun as [Hno' | p Hff Hc | p err w' Hff Hc Hget
                       | p addr err w' Hff Hc Hget Hscr
                       | p addr pk w' Hff Hc Hget Hscr];
      try (destruct (first_fit_not_no_fit _ _ _ Hff Hno)).
    reflexivity. }
  split; [exact Hf|].
  intros st0 args Hlist Hpass.
  rewrite (CreateTransaction_via_fundTx _ _ _ _ _ _ _ _ _ _ Hlist Hpass), Hf.
  reflexivity.
Qed.

(** ** The change output *)

Lemma addressRequests_app (l l' : list Call) :
  addressRequests (l ++ l') = (addressRequests l + addressRequests l')%nat.
Proof.
  unfold addressRequests. now rewrite filter_app, length_app.
Qed.

(** C4. When [fundTx] succeeds, with [selected] the total of the outputs it
    has taken and [requiredFee] the fee computed at that point: if
    [selected - target - requiredFee > 0] (in Go's [int64] arithmetic), one
    output of exactly that value is appended after the requested ones and
    the wallet has been asked for exactly one new address; otherwise the
    outputs are left as they were and no collaborator has been called. *)
Theorem fundTx_change_output {W : Type} `{Wallet W}
    (st : World W) (account : string) (unspent : list Unspent)
    (tx : MessageTx) (amt feeRate : coin.Amount)
    (payToAddrScript : Address -> result (list Byte.byte))
    (serializeSize : MessageTx -> Z)
    (tx' : MessageTx) (st' : World W) :
  fundTx st account unspent tx amt feeRate payToAddrScript serializeSize
  = Returns (None, tx', st') ->
  exists p,
    first_fit (covers serializeSize feeRate amt tx (coin.mkAmount 0))
              (filter (eligible account) unspent) p /\
    Tx_TxIn tx' = Tx_TxIn tx ++ map newTxIn p /\
    let selected := coin.AtomsValue (sumSelected (coin.mkAmount 0) p) in
    let requiredFee :=
      coin.AtomsValue (reqFee serializeSize feeRate (addInputs tx p)) in
    let change :=
      Int64.sub (Int64.sub selected (coin.AtomsValue amt)) requiredFee in
    (0 < change ->
     (exists pkScript,
        Tx_TxOut tx' =
        Tx_TxOut tx ++ [{| Value := coin.mkAmount change;
                           PkScript := pkScript |}]) /\
     addressRequests (calls st') = S (addressRequests (calls st)) /\
     wallet st' = snd (GetNewAddress (wallet st) account)) /\
    (change <= 0 -> Tx_TxOut tx' = Tx_TxOut tx /\ st' = st).
Proof.
  intros Hrun. apply fundTx_returns in Hrun. destruct Hrun as [_ Hrun].
  inversion Hrun as [Hno | p Hff Hc | p err w' Hff Hc Hget
                     | p addr err w' Hff Hc Hget Hscr
                     | p addr pk w' Hff Hc Hget Hscr]; subst;
    exists p; (split; [exact Hff|]); unfold changeVal in Hc; cbn zeta.
  - split; [apply addInputs_TxIn|]. split; [lia|].
    intros _. split; [apply addInputs_TxOut|reflexivity].
  - split; [apply addInputs_TxIn|]. split; [|lia].
    intros _. split; [|split].
    + exists pk. cbn [appendTxOut Tx_TxOut]. now rewrite addInputs_TxOut.
    + cbn [calls]. rewrite addressRequests_app. cbn. lia.
    + cbn [wallet]. now rewrite Hget.
Qed.

(** ** Errors of the collaborators *)

(** C7. When the address provider or the script builder returns an error
    during a run of [fundTx], [fundTx] returns that very error, the skeleton
    has received no change output, and a [CreateTransaction] that made this
    call returns the same error and no skeleton. *)
Theorem fundTx_collaborator_error {W : Type} `{Wallet W}
    (st : World W) (account : string) (unspent : list Unspent)
    (tx : MessageTx) (amt feeRate : coin.Amount)
    (payToAddrScript : Address -> result (list Byte.byte))
    (serializeSize : MessageTx -> Z)
    (r : option error) (tx' : MessageTx) (st' : World W)
    (log : list Call) (e : error) :
  fundTx st account unspent tx amt feeRate payToAddrScript serializeSize
  = Returns (r, tx', st') ->
  calls st' = calls st ++ log ->
  failed_with e log ->
  r = Some e /\
  Tx_TxOut tx' = Tx_TxOut tx /\
  forall st0 args,
    callListUnspent st0 = (Ok unspent, st) ->
    passes_to_fundTx args account tx amt feeRate payToAddrScript
                     serializeSize ->
    CreateTransaction st0 args = Returns (None, Some e, st').
Proof.
  intros Hf Hlog Hfail.
  assert (Hr : r = Some e /\ Tx_TxOut tx' = Tx_TxOut tx).
  { pose proof Hf as Hrun.
    apply fundTx_returns in Hrun. destruct Hrun as [_ Hrun].
    inversion Hrun as [Hno | p Hff Hc | p err w' Hff Hc Hget
                       | p addr err w' Hff Hc Hget Hscr
                       | p addr pk w' Hff Hc Hget Hscr]; subst;
      cbn [calls] in Hlog;
      try (rewrite <- (app_nil_r (calls st')) in Hlog at 1);
      apply app_inv_head in Hlog; subst log;
      destruct Hfail as [[a Hin] | [a Hin]]; cbn [In] in Hin;
      repeat match goal with
             | Hx : _ \/ _ |- _ => destruct Hx
             | Hx : False |- _ => destruct Hx
             | Hx : @eq Call _ _ |- _ => first [discriminate Hx | injection Hx as ?; subst]
             end;
      split; first [reflexivity | apply addInputs_TxOut]. }
  destruct Hr as [-> Hout]. split; [reflexivity|]. split; [exact Hout|].
  intros st0 args Hlist Hpass.
  rewrite (CreateTransaction_via_fundTx _ _ _ _ _ _ _ _ _ _ Hlist Hpass), Hf.
  reflexivity.
Qed.

(** ** The fee *)

Lemma wrap_congr (z z' : Z) :
  z mod 2 ^ 64 = z' mod 2 ^ 64 -> Int64.wrap z = Int64.wrap z'.
Proof.
  intros Hz. unfold Int64.wrap.
  rewrite <- (Z.add_mod_idemp_l z) by lia.
  rewrite <- (Z.add_mod_idemp_l z') by lia.
  now rewrite Hz.
Qed.

Lemma wrap_mod (z : Z) : Int64.wrap z mod 2 ^ 64 = z mod 2 ^ 64.
Proof.
  unfold Int64.wrap. rewrite Zminus_mod_idemp_l. f_equal. lia.
Qed.

Lemma mul_wrap_l (x d : Z) : Int64.mul (Int64.wrap x) d = Int64.wrap (x * d).
Proof.
  unfold Int64.mul. apply wrap_congr.
  rewrite <- Z.mul_mod_idemp_l by lia. rewrite wrap_mod.
  now rewrite Z.mul_mod_idemp_l by lia.
Qed.

Lemma add_wrap_r (a y : Z) : Int64.add a (Int64.wrap y) = Int64.wrap (a + y).
Proof.
  unfold Int64.add. apply wrap_congr.
  rewrite <- Z.add_mod_idemp_r by lia. rewrite wrap_mod.
  now rewrite Z.add_mod_idemp_r by lia.
Qed.

Lemma spendSize_108 : spendSize = 108.
Proof. reflexivity. Qed.

Lemma txSize_wrap (serializeSize : MessageTx -> Z) (tx : MessageTx) :
  txSize serializeSize tx =
  Int64.wrap (serializeSize tx + 108 * Z.of_nat (List.length (Tx_TxIn tx))).
Proof.
  unfold txSize, Int64.mul. rewrite add_wrap_r. now rewrite spendSize_108.
Qed.

Lemma reqFee_wrap (serializeSize : MessageTx -> Z) (feeRate : coin.Amount)
    (tx : MessageTx) :
  coin.AtomsValue (reqFee serializeSize feeRate tx) =
  Int64.wrap ((serializeSize tx + 108 * Z.of_nat (List.length (Tx_TxIn tx)))
              * coin.AtomsValue feeRate).
Proof.
  unfold reqFee. cbn [coin.AtomsValue]. rewrite txSize_wrap. apply mul_wrap_l.
Qed.

(** C6. After an eligible output has been added, the loop takes as
    provisional size [TxSerializeSize(tx) + 108 * len(tx.TxIn)], where
    [108 = 1+73+1+33] is [spendSize] and [tx] already holds the new input,
    and as required fee that size times the fee rate, all in 64-bit integer
    arithmetic; the fee is the exact product whenever the product fits in an
    [int64].  The loop continues or stops on [selected - fee < amt]. *)
Theorem fundTx_required_fee {W : Type} `{Wallet W}
    (st : World W) (account : string) (u : Unspent) (rest : list Unspent)
    (tx : MessageTx) (start amt feeRate : coin.Amount)
    (payToAddrScript : Address -> result (list Byte.byte))
    (serializeSize : MessageTx -> Z) :
  eligible account u = true ->
  spendSize = 1 + 73 + 1 + 33 /\ spendSize = 108 /\
  exists tx1 size fee selected,
    tx1 = appendTxIn tx (newTxIn u) /\
    size = serializeSize tx1 + 108 * Z.of_nat (List.length (Tx_TxIn tx1)) /\
    List.length (Tx_TxIn tx1) = S (List.length (Tx_TxIn tx)) /\
    txSize serializeSize tx1 = Int64.wrap size /\
    fee = Int64.wrap (size * coin.AtomsValue feeRate) /\
    reqFee serializeSize feeRate tx1 = coin.mkAmount fee /\
    (Int64.in_range (size * coin.AtomsValue feeRate) ->
     fee = size * coin.AtomsValue feeRate) /\
    selected = Int64.add (coin.AtomsValue start) (coin.AtomsValue (Amount u)) /\
    fundTx_loop st account (u :: rest) tx start amt feeRate payToAddrScript
                serializeSize =
    if Int64.sub selected fee <? coin.AtomsValue amt
    then fundTx_loop st account rest tx1 (coin.mkAmount selected) amt feeRate
                     payToAddrScript serializeSize
    else addChange st account tx1 (coin.mkAmount selected) amt
                   (coin.mkAmount fee) payToAddrScript.
Proof.
  intros Hel. split; [reflexivity|]. split; [reflexivity|].
  eexists _, _, _, _.
  split; [reflexivity|]. split; [reflexivity|].
  split; [cbn [appendTxIn Tx_TxIn]; rewrite length_app; cbn; lia|].
  split; [apply txSize_wrap|]. split; [reflexivity|].
  split; [unfold reqFee; f_equal; rewrite txSize_wrap; apply mul_wrap_l|].
  split; [apply wrap_small|]. split; [reflexivity|].
  rewrite fundTx_loop_take by exact Hel.
  unfold covers. cbn [addInputs sumSelected fold_left coin.AtomsValue].
  rewrite reqFee_wrap.
  assert (Hfee : reqFee serializeSize feeRate (appendTxIn tx (newTxIn u)) =
                 coin.mkAmount
                   (Int64.wrap
                      ((serializeSize (appendTxIn tx (newTxIn u))
                        + 108 * Z.of_nat
                                  (List.length
                                     (Tx_TxIn (appendTxIn tx (newTxIn u)))))
                       * coin.AtomsValue feeRate))).
  { unfold reqFee. f_equal. rewrite txSize_wrap. apply mul_wrap_l. }
  rewrite Hfee.
  destruct (_ <? _); reflexivity.
Qed.

(** ** Value conservation *)

Lemma Zsum_app (l l' : list Z) : Zsum (l ++ l') = Zsum l + Zsum l'.
Proof.
  induction l as [|a l IH]; cbn [Zsum app fold_right] in *; [reflexivity|].
  fold (Zsum (l ++ l')). fold (Zsum l). lia.
Qed.

Lemma totalAmount_app (l l' : list Unspent) :
  totalAmount (l ++ l') = totalAmount l + totalAmount l'.
Proof. unfold totalAmount. now rewrite map_app, Zsum_app. Qed.

Lemma totalAmount_nonneg (l : list Unspent) :
  Forall (fun u => 0 <= coin.AtomsValue (Amount u)) l -> 0 <= totalAmount l.
Proof.
  induction 1 as [|u l Hu _ IH]; [cbn; lia|].
  change (totalAmount (u :: l))
    with (coin.AtomsValue (Amount u) + totalAmount l). lia.
Qed.

Lemma sumSelected_exact (sel : list Unspent) : forall start,
  0 <= coin.AtomsValue start ->
  Forall (fun u => 0 <= coin.AtomsValue (Amount u)) sel ->
  coin.AtomsValue start + totalAmount sel <= Int64.max_int ->
  coin.AtomsValue (sumSelected start sel)
  = coin.AtomsValue start + totalAmount sel.
Proof.
  induction sel as [|u sel IH]; intros start Hs Hall Hmax.
  - cbn. lia.
  - inversion Hall as [|? ? Hu Hsel]; subst.
    pose proof (totalAmount_nonneg sel Hsel) as Hnn.
    change (totalAmount (u :: sel))
      with (coin.AtomsValue (Amount u) + totalAmount sel) in *.
    cbn [sumSelected fold_left].
    fold (sumSelected
            (coin.mkAmount (Int64.add (coin.AtomsValue start)
                                      (coin.AtomsValue (Amount u)))) sel).
    assert (Hadd : Int64.add (coin.AtomsValue start) (coin.AtomsValue (Amount u))
                   = coin.AtomsValue start + coin.AtomsValue (Amount u)).
    { apply wrap_small. unfold Int64.in_range, Int64.min_int, Int64.max_int in *.
      lia. }
    rewrite IH; cbn [coin.AtomsValue]; try rewrite Hadd; try assumption; lia.
Qed.

Lemma sumInputs_addInputs (tx : MessageTx) (sel : list Unspent) :
  sumInputs (addInputs tx sel) = sumInputs tx + totalAmount sel.
Proof.
  unfold sumInputs, totalAmount.
  rewrite addInputs_TxIn, map_app, Zsum_app, map_map. reflexivity.
Qed.

Lemma sumInputs_appendTxOut (tx : MessageTx) (o : TxOut) :
  sumInputs (appendTxOut tx o) = sumInputs tx.
Proof. reflexivity. Qed.

Lemma sumOutputs_appendTxOut (tx : MessageTx) (o : TxOut) :
  sumOutputs (appendTxOut tx o) = sumOutputs tx + coin.AtomsValue (Value o).
Proof.
  unfold sumOutputs. cbn [appendTxOut Tx_TxOut].
  rewrite map_app, Zsum_app. cbn. lia.
Qed.

Lemma sumOutputs_addInputs (tx : MessageTx) (sel : list Unspent) :
  sumOutputs (addInputs tx sel) = sumOutputs tx.
Proof. unfold sumOutputs. now rewrite addInputs_TxOut. Qed.

Lemma skeleton_addInputs (tx : MessageTx) (sel : list Unspent) :
  mkMessageTx (Tx_TxIn (addInputs tx sel)) (Tx_TxOut tx) = addInputs tx sel.
Proof.
  rewrite <- (addInputs_TxOut sel tx). now destruct (addInputs tx sel).
Qed.

Lemma tally_skeleton (outputs : list TxOut) : forall tx a,
  fst (tally outputs tx a)
  = mkMessageTx (Tx_TxIn tx) (Tx_TxOut tx ++ outputs).
Proof.
  induction outputs as [|o outputs IH]; intros tx a; cbn [tally].
  - rewrite app_nil_r. now destruct tx.
  - rewrite IH. cbn [appendTxOut Tx_TxIn Tx_TxOut]. now rewrite <- app_assoc.
Qed.

Lemma tally_exact (outputs : list TxOut) : forall tx a,
  0 <= coin.AtomsValue a ->
  Forall (fun o => 0 < coin.AtomsValue (Value o)) outputs ->
  coin.AtomsValue a + Zsum (map (fun o => coin.AtomsValue (Value o)) outputs)
  <= Int64.max_int ->
  snd (tally outputs tx a)
  = coin.mkAmount
      (coin.AtomsValue a
       + Zsum (map (fun o => coin.AtomsValue (Value o)) outputs)).
Proof.
  induction outputs as [|o outputs IH]; intros tx a Ha Hall Hmax.
  - cbn. rewrite Z.add_0_r. now destruct a.
  - inversion Hall as [|? ? Ho Hrest]; subst.
    assert (Hnn : 0 <= Zsum (map (fun o => coin.AtomsValue (Value o)) outputs)).
    { clear - Hrest. induction Hrest as [|x l Hx _ IHl]; [cbn; lia|].
      change (Zsum (map (fun o => coin.AtomsValue (Value o)) (x :: l)))
        with (coin.AtomsValue (Value x)
              + Zsum (map (fun o => coin.AtomsValue (Value o)) l)). lia. }
    change (Zsum (map (fun o => coin.AtomsValue (Value o)) (o :: outputs)))
      with (coin.AtomsValue (Value o)
            + Zsum (map (fun o => coin.AtomsValue (Value o)) outputs)) in *.
    cbn [tally].
    assert (Hadd : Int64.add (coin.AtomsValue a) (coin.AtomsValue (Value o))
                   = coin.AtomsValue a + coin.AtomsValue (Value o)).
    { apply wrap_small. unfold Int64.in_range, Int64.min_int, Int64.max_int in *.
      lia. }
    rewrite IH; cbn [coin.AtomsValue]; try rewrite Hadd; try assumption;
      try lia.
    f_equal. lia.
Qed.

Lemma tallied_skeleton (args : CreateTransactionArgs) :
  tally (Outputs args) (mkMessageTx [] []) (coin.mkAmount 0)
  = (skeleton args, tallied args).
Proof.
  unfold tallied.
  change (skeleton args)
    with (mkMessageTx (Tx_TxIn (mkMessageTx [] []))
                      (Tx_TxOut (mkMessageTx [] []) ++ Outputs args)).
  rewrite <- (tally_skeleton (Outputs args) (mkMessageTx [] []) (coin.mkAmount 0)).
  now destruct (tally _ _ _).
Qed.

Lemma tallied_requested (args : CreateTransactionArgs) :
  Forall (fun o => 0 < coin.AtomsValue (Value o)) (Outputs args) ->
  requested args <= Int64.max_int ->
  tallied args = coin.mkAmount (requested args).
Proof.
  intros Hall Hmax. unfold tallied.
  rewrite tally_exact; try assumption; cbn [coin.AtomsValue];
    [reflexivity | lia].
Qed.

Section InRange.

(** While amounts, sizes and fees are not negative and stay within
    [int64], the loop's arithmetic is exact. *)
Variables (serializeSize : MessageTx -> Z) (feeRate : coin.Amount)
          (tx : MessageTx) (E : list Unspent) (maxSize : Z).

Hypothesis rate_nonneg : 0 <= coin.AtomsValue feeRate.
Hypothesis amounts_nonneg :
  Forall (fun u => 0 <= coin.AtomsValue (Amount u)) E.
Hypothesis total_fits : totalAmount E <= Int64.max_int.
Hypothesis sizes : size_bounded serializeSize tx E maxSize.
Hypothesis maxFee_fits : maxSize * coin.AtomsValue feeRate <= Int64.max_int.

Lemma prefix_selected p q :
  E = p ++ q ->
  coin.AtomsValue (sumSelected (coin.mkAmount 0) p) = totalAmount p /\
  0 <= totalAmount p <= totalAmount E.
Proof.
  intros HE. rewrite HE in amounts_nonneg, total_fits |- *.
  apply Forall_app in amounts_nonneg. destruct amounts_nonneg as [Hp Hq].
  pose proof (totalAmount_nonneg p Hp). pose proof (totalAmount_nonneg q Hq).
  rewrite totalAmount_app in *.
  rewrite sumSelected_exact; cbn [coin.AtomsValue]; try assumption; lia.
Qed.

Lemma prefix_fee p q :
  E = p ++ q -> p <> [] ->
  0 <= coin.AtomsValue (reqFee serializeSize feeRate (addInputs tx p))
    <= maxSize * coin.AtomsValue feeRate /\
  coin.AtomsValue (reqFee serializeSize feeRate (addInputs tx p))
  = (serializeSize (addInputs tx p)
     + 108 * Z.of_nat (List.length (Tx_TxIn (addInputs tx p))))
    * coin.AtomsValue feeRate.
Proof.
  intros HE Hp. destruct (sizes p q HE Hp) as [H0 Hmax].
  rewrite spendSize_108 in Hmax.
  set (size := serializeSize (addInputs tx p)
               + 108 * Z.of_nat (List.length (Tx_TxIn (addInputs tx p)))) in *.
  assert (Hsize : 0 <= size) by (unfold size; lia).
  assert (Hfee : 0 <= size * coin.AtomsValue feeRate
                 <= maxSize * coin.AtomsValue feeRate).
  { split; [apply Z.mul_nonneg_nonneg; assumption|].
    apply Z.mul_le_mono_nonneg_r; assumption. }
  rewrite reqFee_wrap. fold size. rewrite wrap_small; [split; [exact Hfee|reflexivity]|].
  unfold Int64.in_range, Int64.min_int, Int64.max_int in *. lia.
Qed.

Lemma prefix_covers (amt : coin.Amount) p q :
  E = p ++ q -> p <> [] ->
  0 <= coin.AtomsValue amt <= Int64.max_int ->
  covers serializeSize feeRate amt tx (coin.mkAmount 0) p = true <->
  coin.AtomsValue amt
  + coin.AtomsValue (reqFee serializeSize feeRate (addInputs tx p))
  <= totalAmount p.
Proof.
  intros HE Hp Hamt.
  destruct (prefix_selected p q HE) as [Hsel Hrange].
  destruct (prefix_fee p q HE Hp) as [Hfee _].
  unfold covers. rewrite Hsel. unfold Int64.sub. rewrite wrap_small.
  - rewrite negb_true_iff, Z.ltb_ge. lia.
  - unfold Int64.in_range, Int64.min_int, Int64.max_int in *. lia.
Qed.

Lemma prefix_change (amt : coin.Amount) p q :
  E = p ++ q -> p <> [] ->
  0 <= coin.AtomsValue amt <= Int64.max_int ->
  covers serializeSize feeRate amt tx (coin.mkAmount 0) p = true ->
  changeVal serializeSize feeRate amt tx (coin.mkAmount 0) p
  = totalAmount p - coin.AtomsValue amt
    - coin.AtomsValue (reqFee serializeSize feeRate (addInputs tx p)).
Proof.
  intros HE Hp Hamt Hcov.
  apply (prefix_covers amt p q HE Hp Hamt) in Hcov.
  destruct (prefix_selected p q HE) as [Hsel Hrange].
  destruct (prefix_fee p q HE Hp) as [Hfee _].
  unfold changeVal. rewrite Hsel. unfold Int64.sub.
  rewrite (wrap_small (totalAmount p - coin.AtomsValue amt)).
  - apply wrap_small.
    unfold Int64.in_range, Int64.min_int, Int64.max_int in *. lia.
  - unfold Int64.in_range, Int64.min_int, Int64.max_int in *. lia.
Qed.

End InRange.

Lemma requested_positive (args : CreateTransactionArgs) :
  Outputs args <> [] ->
  Forall (fun o => 0 < coin.AtomsValue (Value o)) (Outputs args) ->
  0 < requested args.
Proof.
  unfold requested. destruct (Outputs args) as [|o outputs]; [congruence|].
  intros _ Hall. inversion Hall as [|? ? Ho Hrest]; subst.
  change (Zsum (map (fun o => coin.AtomsValue (Value o)) (o :: outputs)))
    with (coin.AtomsValue (Value o)
          + Zsum (map (fun o => coin.AtomsValue (Value o)) outputs)).
  enough (0 <= Zsum (map (fun o => coin.AtomsValue (Value o)) outputs)) by lia.
  clear - Hrest. induction Hrest as [|x l Hx _ IHl]; [cbn; lia|].
  change (Zsum (map (fun o => coin.AtomsValue (Value o)) (x :: l)))
    with (coin.AtomsValue (Value x)
          + Zsum (map (fun o => coin.AtomsValue (Value o)) l)). lia.
Qed.

(** C1, as amended.  Let the account be non-empty, the requested outputs
    non-empty with positive values, the fee rate, the amounts of the
    eligible outputs and the sizes non-negative, all totals within [int64],
    and [maxSize] a worst-case provisional size.  If the eligible outputs
    carry at least the requested amount plus [maxSize] times the fee rate,
    and the address provider and the script builder answer without error,
    then [fundTx] returns no error, [CreateTransaction] returns the
    skeleton, and in that skeleton the input values sum to at least the
    output values plus the fee computed when the loop stopped. *)
Theorem CreateTransaction_funded {W : Type} `{Wallet W}
    (st st1 : World W) (args : CreateTransactionArgs)
    (unspent : list Unspent) (maxSize : Z)
    (addr : Address) (w2 : W) (pkScript : list Byte.byte) :
  callListUnspent st = (Ok unspent, st1) ->
  Args_Account args <> ""%string ->
  Outputs args <> [] ->
  Forall (fun o => 0 < coin.AtomsValue (Value o)) (Outputs args) ->
  requested args <= Int64.max_int ->
  0 <= coin.AtomsValue (FeeRate args) ->
  Forall (fun u => 0 <= coin.AtomsValue (Amount u))
         (filter (eligible (Args_Account args)) unspent) ->
  totalAmount (filter (eligible (Args_Account args)) unspent)
  <= Int64.max_int ->
  size_bounded (TxSerializeSize args) (skeleton args)
               (filter (eligible (Args_Account args)) unspent) maxSize ->
  0 <= maxSize ->
  requested args + maxSize * coin.AtomsValue (FeeRate args)
  <= totalAmount (filter (eligible (Args_Account args)) unspent) ->
  GetNewAddress (wallet st1) (Args_Account args) = (Ok addr, w2) ->
  PayToAddrScript args addr = Ok pkScript ->
  exists tx' st',
    fundTx st1 (Args_Account args) unspent (skeleton args)
           (coin.mkAmount (requested args)) (FeeRate args)
           (PayToAddrScript args) (TxSerializeSize args)
    = Returns (None, tx', st') /\
    CreateTransaction st args = Returns (Some tx', None, st') /\
    sumOutputs tx'
    + coin.AtomsValue (reqFee (TxSerializeSize args) (FeeRate args)
                              (mkMessageTx (Tx_TxIn tx') (Outputs args)))
    <= sumInputs tx'.
Proof.
  intros Hlist Hacc Hne Hpos Hreq Hrate Hamounts Htotal Hsizes Hmax Hfunds
         Hget Hscript.
  set (E := filter (eligible (Args_Account args)) unspent) in *.
  set (S := TxSerializeSize args) in *.
  set (amt := coin.mkAmount (requested args)).
  pose proof (requested_positive args Hne Hpos) as Hreq_pos.
  assert (Hfee0 : 0 <= maxSize * coin.AtomsValue (FeeRate args))
    by (apply Z.mul_nonneg_nonneg; lia).
  assert (HmaxFee : maxSize * coin.AtomsValue (FeeRate args) <= Int64.max_int)
    by lia.
  assert (Hamt : 0 <= coin.AtomsValue amt <= Int64.max_int)
    by (cbn [amt coin.AtomsValue]; lia).
  assert (HE : E <> []).
  { intros HE. rewrite HE in Hfunds. cbn in Hfunds. lia. }
  assert (Hpass : passes_to_fundTx args (Args_Account args) (skeleton args)
                    amt (FeeRate args) (PayToAddrScript args) S).
  { repeat split. rewrite tallied_skeleton.
    now rewrite (tallied_requested args Hpos Hreq). }
  (* the whole eligible list covers the amount *)
  assert (Hall : covers S (FeeRate args) amt (skeleton args)
                        (coin.mkAmount 0) E = true).
  { apply (prefix_covers S (FeeRate args) (skeleton args) E maxSize Hrate
             Hamounts Htotal Hsizes HmaxFee amt E []);
      [now rewrite app_nil_r | exact HE | exact Hamt |].
    destruct (prefix_fee S (FeeRate args) (skeleton args) E maxSize Hrate
                Hsizes HmaxFee E [] ltac:(now rewrite app_nil_r) HE)
      as [Hf _].
    cbn [amt coin.AtomsValue]. lia. }
  assert (Hkey : forall p,
            first_fit (covers S (FeeRate args) amt (skeleton args)
                              (coin.mkAmount 0)) E p ->
            0 <= changeVal S (FeeRate args) amt (skeleton args)
                           (coin.mkAmount 0) p /\
            totalAmount p
            = requested args
              + changeVal S (FeeRate args) amt (skeleton args)
                          (coin.mkAmount 0) p
              + coin.AtomsValue (reqFee S (FeeRate args)
                                        (addInputs (skeleton args) p))).
  { intros p ([q Hq] & Hp & Hok & _).
    pose proof (prefix_change S (FeeRate args) (skeleton args) E maxSize Hrate
                  Hamounts Htotal Hsizes HmaxFee amt p q Hq Hp Hamt Hok)
      as Hc.
    apply (prefix_covers S (FeeRate args) (skeleton args) E maxSize Hrate
             Hamounts Htotal Hsizes HmaxFee amt p q Hq Hp Hamt) in Hok.
    cbn [amt coin.AtomsValue] in *. lia. }
  assert (Hgoal : exists tx' st',
            fundTx_loop st1 (Args_Account args) unspent (skeleton args)
                        (coin.mkAmount 0) amt (FeeRate args)
                        (PayToAddrScript args) S = (None, tx', st') /\
            sumOutputs tx'
            + coin.AtomsValue (reqFee S (FeeRate args)
                                (mkMessageTx (Tx_TxIn tx') (Outputs args)))
            <= sumInputs tx').
  { pose proof (fundTx_loop_run st1 (Args_Account args) unspent (skeleton args)
                  (coin.mkAmount 0) amt (FeeRate args) (PayToAddrScript args) S)
      as Hrun.
    fold E in Hrun.
    inversion Hrun as [Hno | p Hff Hc | p err w' Hff Hc Hget'
                       | p addr' err w' Hff Hc Hget' Hscr
                       | p addr' pk w' Hff Hc Hget' Hscr].
    - rewrite (Hno E [] ltac:(now rewrite app_nil_r) HE) in Hall.
      discriminate.
    - destruct (Hkey p Hff) as [Hc0 Hsum].
      eexists _, _. split; [reflexivity|].
      change (Outputs args) with (Tx_TxOut (skeleton args)).
      rewrite skeleton_addInputs, sumInputs_addInputs, sumOutputs_addInputs.
      change (sumInputs (skeleton args)) with 0.
      change (sumOutputs (skeleton args)) with (requested args).
      lia.
    - rewrite Hget in Hget'. discriminate.
    - rewrite Hget in Hget'. injection Hget' as <- <-.
      rewrite Hscript in Hscr. discriminate.
    - destruct (Hkey p Hff) as [Hc0 Hsum].
      eexists _, _. split; [reflexivity|].
      cbn [appendTxOut Tx_TxIn].
      change (Outputs args) with (Tx_TxOut (skeleton args)).
      rewrite skeleton_addInputs.
      change (mkMessageTx (Tx_TxIn (addInputs (skeleton args) p))
                          (Tx_TxOut (addInputs (skeleton args) p) ++ ?[o]))
        with (appendTxOut (addInputs (skeleton args) p)
                {| Value := coin.mkAmount
                              (changeVal S (FeeRate args) amt (skeleton args)
                                         (coin.mkAmount 0) p);
                   PkScript := pk |}).
      rewrite sumInputs_appendTxOut, sumOutputs_appendTxOut.
      rewrite sumInputs_addInputs, sumOutputs_addInputs.
      change (sumInputs (skeleton args)) with 0.
      change (sumOutputs (skeleton args)) with (requested args).
      cbn [Value coin.AtomsValue]. lia. }
  destruct Hgoal as (tx' & st' & Hloop & Hsum).
  assert (Hf : fundTx st1 (Args_Account args) unspent (skeleton args) amt
                 (FeeRate args) (PayToAddrScript args) S
               = Returns (None, tx', st')).
  { rewrite fundTx_nonempty_account by exact Hacc. now rewrite Hloop. }
  exists tx', st'. split; [exact Hf|]. split; [|exact Hsum].
  rewrite (CreateTransaction_via_fundTx _ _ _ _ _ _ _ _ _ _ Hlist Hpass), Hf.
  reflexivity.
Qed.

(** ** The [Change] flag *)

Lemma CreateTransaction_success_inv {W : Type} `{Wallet W}
    (st : World W) (args : CreateTransactionArgs)
    (tx' : MessageTx) (oerr : option error) (st' : World W) :
  CreateTransaction st args = Returns (Some tx', oerr, st') ->
  exists unspent st1,
    callListUnspent st = (Ok unspent, st1) /\
    fundTx st1 (Args_Account args) unspent (skeleton args) (tallied args)
           (FeeRate args) (PayToAddrScript args) (TxSerializeSize args)
    = Returns (None, tx', st').
Proof.
  unfold CreateTransaction. rewrite tallied_skeleton.
  destruct (callListUnspent st) as [[unspent|err] st1]; [|discriminate].
  intros Hrun. exists unspent, st1. split; [reflexivity|].
  destruct (fundTx _ _ _ _ _ _ _ _) as [[[[err|] tx2] st2]|tag];
    try discriminate.
  now injection Hrun as -> _ ->.
Qed.

(** C10. [CreateTransaction] never reads the [Change] field of its
    arguments: whatever value the field is given, the returned skeleton,
    error and collaborator calls are the same.  In a skeleton it returns,
    the requested outputs are followed by a change output exactly when
    [selected - target - requiredFee > 0], whatever [Change] says. *)
Theorem CreateTransaction_ignores_Change {W : Type} `{Wallet W}
    (st : World W) (args : CreateTransactionArgs) (b : bool) :
  CreateTransaction st (withChange b args) = CreateTransaction st args /\
  forall tx' st',
    CreateTransaction st (withChange b args) = Returns (Some tx', None, st') ->
    exists unspent p,
      fst (callListUnspent st) = Ok unspent /\
      first_fit (covers (TxSerializeSize args) (FeeRate args) (tallied args)
                        (skeleton args) (coin.mkAmount 0))
                (filter (eligible (Args_Account args)) unspent) p /\
      let selected := coin.AtomsValue (sumSelected (coin.mkAmount 0) p) in
      let requiredFee :=
        coin.AtomsValue (reqFee (TxSerializeSize args) (FeeRate args)
                                (addInputs (skeleton args) p)) in
      let change :=
        Int64.sub (Int64.sub selected (coin.AtomsValue (tallied args)))
                  requiredFee in
      (0 < change ->
       exists pkScript,
         Tx_TxOut tx' = Outputs args ++ [{| Value := coin.mkAmount change;
                                            PkScript := pkScript |}]) /\
      (change <= 0 -> Tx_TxOut tx' = Outputs args).
Proof.
  split; [reflexivity|].
  intros tx' st' Hrun.
  change (CreateTransaction st (withChange b args))
    with (CreateTransaction st args) in Hrun.
  apply CreateTransaction_success_inv in Hrun.
  destruct Hrun as (unspent & st1 & Hlist & Hf).
  apply fundTx_returns in Hf. destruct Hf as [_ Hf].
  exists unspent. rewrite Hlist. cbn [fst].
  inversion Hf as [Hno | p Hff Hc | p err w' Hff Hc Hget
                   | p addr err w' Hff Hc Hget Hscr
                   | p addr pk w' Hff Hc Hget Hscr]; subst;
    exists p; (split; [reflexivity|]); (split; [exact Hff|]);
    unfold changeVal in Hc; cbn zeta.
  - split; [lia|]. intros _. now rewrite addInputs_TxOut.
  - split; [|lia]. intros _. exists pk.
    cbn [appendTxOut Tx_TxOut]. now rewrite addInputs_TxOut.
Qed.

(** ** Connecting with retries *)

Section Retry.

Import RPC.

Context {F : Type} `{RPCClientFactory F}.

Variables (cfg : RPCConnectionConfig) (handlers : NotificationHandlers).

(** When the factory still fails more often than there are retries, the
    attempts end with the error of the last one. *)
Lemma attempt_exhausted errs : forall retries f client,
  fails_then_succeeds cfg handlers f errs client ->
  (retries < List.length errs)%nat ->
  exists f',
    attempt retries f cfg handlers = (Err (nth retries errs (Errorf "")), f').
Proof.
  induction errs as [|e errs IH]; intros retries f client Hfts Hlt.
  - cbn in Hlt. lia.
  - inversion Hfts as [|? ? f1 ? ? Hnew Hrest]; subst.
    destruct retries as [|n]; cbn [attempt nth]; rewrite Hnew.
    + now exists f1.
    + apply (IH n f1 client Hrest). cbn in Hlt. lia.
Qed.

(** When there are at least as many retries as failures, the attempts end
    with the client. *)
Lemma attempt_succeeds errs : forall retries f client,
  fails_then_succeeds cfg handlers f errs client ->
  (List.length errs <= retries)%nat ->
  exists f', attempt retries f cfg handlers = (Ok client, f').
Proof.
  induction errs as [|e errs IH]; intros retries f client Hfts Hle.
  - inversion Hfts as [? ? f1 Hnew|]; subst.
    exists f1. destruct retries; cbn [attempt]; now rewrite Hnew.
  - inversion Hfts as [|? ? f1 ? ? Hnew Hrest]; subst.
    destruct retries as [|n]; [cbn in Hle; lia|].
    cbn [attempt]. rewrite Hnew.
    apply (IH n f1 client Hrest). cbn in Hle. lia.
Qed.

End Retry.

(** C9. Let the factory fail on its first [N] attempts, with the errors
    [errs], and then hand out a client.  [Connect] on a disconnected
    connection with [MaxConnRetries >= N] returns no error and leaves the
    connection [Connected], holding that client; with [MaxConnRetries < N]
    it returns a connection-establishment error that wraps the error of the
    last attempt made, and the connection stays [Disconnected]. *)
Theorem Connect_retries {F : Type} `{RPC.RPCClientFactory F}
    (conn : RPC.RPCConnection F) (cfg : RPC.RPCConnectionConfig)
    (handlers : RPC.NotificationHandlers)
    (errs : list error) (client : RPC.RPCClient) :
  RPC.state conn = RPC.Disconnected ->
  RPC.fails_then_succeeds cfg handlers (RPC.factory conn) errs client ->
  ((List.length errs <= RPC.MaxConnRetries conn)%nat ->
   exists conn',
     RPC.Connect conn cfg handlers = (None, conn') /\
     RPC.state conn' = RPC.Connected /\
     RPC.IsConnected conn' = true /\
     RPC.rpcClient conn' = Some client) /\
  ((RPC.MaxConnRetries conn < List.length errs)%nat ->
   exists conn',
     RPC.Connect conn cfg handlers
     = (Some (RPC.ConnectionEstablishmentFailure
                (nth (RPC.MaxConnRetries conn) errs (Errorf ""))), conn') /\
     RPC.state conn' = RPC.Disconnected /\
     RPC.IsConnected conn' = false /\
     RPC.rpcClient conn' = RPC.rpcClient conn).
Proof.
  intros Hstate Hfts. unfold RPC.Connect. rewrite Hstate. split; intros Hn.
  - destruct (attempt_succeeds cfg handlers errs _ _ _ Hfts Hn) as [f' ->].
    eexists. split; [reflexivity|]. now repeat split.
  - destruct (attempt_exhausted cfg handlers errs _ _ _ Hfts Hn) as [f' ->].
    eexists. split; [reflexivity|]. now repeat split.
Qed.

(** * The properties on concrete runs *)

(** The first scenario of section 8: one output of 150000, a payment of
    100000 at 10 atoms per byte and a size of 200 + 108 bytes give a fee of
    3080 and a change output of 46920. *)
Example scenario_change :
  CreateTransaction (stubWorld singleUnspent (Ok "DsChange"%string))
                    (pay 100000)
  = Returns (Some singleFunded, None,
             stubAfter singleUnspent (Ok "DsChange"%string) 1
                       (CallListUnspent (Ok singleUnspent) :: changeCalls)).
Proof. reflexivity. Qed.

(** The second scenario: the same output cannot pay 200000. *)
Example scenario_insufficient :
  CreateTransaction (stubWorld singleUnspent (Ok "DsChange"%string))
                    (pay 200000)
  = Returns (None, Some insufficientFunds,
             stubAfter singleUnspent (Ok "DsChange"%string) 0
               [CallListUnspent (Ok singleUnspent)]).
Proof. reflexivity. Qed.

(** The third scenario: of two outputs of 60000 the second belongs to
    another account; a payment of 50000 is funded from the first alone. *)
Example scenario_other_account :
  CreateTransaction
    (stubWorld [utxo 60000 "default" true; utxo 60000 "other" true]
               (Ok "DsChange"%string))
    (pay 50000)
  = Returns (Some {| Tx_TxIn := [newTxIn (utxo 60000 "default" true)];
                     Tx_TxOut := [payment 50000; changeOutput 6920] |},
             None,
             stubAfter [utxo 60000 "default" true; utxo 60000 "other" true]
                       (Ok "DsChange"%string) 1
                       (CallListUnspent
                          (Ok [utxo 60000 "default" true;
                               utxo 60000 "other" true]) :: changeCalls)).
Proof. reflexivity. Qed.

(** A script builder that fails: its error comes back as it is. *)
Example scenario_script_error :
  CreateTransaction (stubWorld singleUnspent (Ok "DsChange"%string))
                    (request [payment 100000] 10 true brokenScript)
  = Returns (None, Some (Errorf "unsupported address"),
             stubAfter singleUnspent (Ok "DsChange"%string) 1
               [CallListUnspent (Ok singleUnspent);
                CallGetNewAddress "default" (Ok "DsChange"%string);
                CallPayToAddrScript "DsChange"
                  (Err (Errorf "unsupported address"))]).
Proof. reflexivity. Qed.

(** An empty account name stops the run at the assertion. *)
Example scenario_empty_account :
  fundTx (stubWorld [] (Ok "DsChange"%string)) "" singleUnspent
         (skeleton (pay 100000)) (coin.mkAmount 100000) (coin.mkAmount 10)
         p2pkh size200
  = Panics "account".
Proof. reflexivity. Qed.

Lemma single_prefix {A : Type} (a : A) (p q : list A) :
  [a] = p ++ q -> p <> [] -> p = [a] /\ q = [].
Proof.
  intros Heq Hp. destruct p as [|b p]; [congruence|].
  cbn in Heq. injection Heq as <- Heq.
  symmetry in Heq. apply app_eq_nil in Heq. destruct Heq as [-> ->].
  now split.
Qed.

Lemma CreateTransaction_funded_witness :
  exists tx' st',
    fundTx (stubAfter singleUnspent (Ok "DsChange"%string) 0
                      [CallListUnspent (Ok singleUnspent)])
           "default" singleUnspent (skeleton (pay 100000))
           (coin.mkAmount 100000) (coin.mkAmount 10) p2pkh size200
    = Returns (None, tx', st') /\
    CreateTransaction (stubWorld singleUnspent (Ok "DsChange"%string))
                      (pay 100000)
    = Returns (Some tx', None, st') /\
    sumOutputs tx'
    + coin.AtomsValue (reqFee size200 (coin.mkAmount 10)
                              (mkMessageTx (Tx_TxIn tx') [payment 100000]))
    <= sumInputs tx'.
Proof.
  apply (CreateTransaction_funded
           (stubWorld singleUnspent (Ok "DsChange"%string))
           (stubAfter singleUnspent (Ok "DsChange"%string) 0
                      [CallListUnspent (Ok singleUnspent)])
           (pay 100000) singleUnspent 308 "DsChange"%string
           (mkStubWallet (Ok singleUnspent) (Ok "DsChange"%string) 1)
           (list_byte_of_string "DsChange")).
  - reflexivity.
  - discriminate.
  - discriminate.
  - repeat constructor.
  - vm_compute. discriminate.
  - vm_compute. discriminate.
  - repeat constructor. vm_compute. discriminate.
  - vm_compute. discriminate.
  - intros p q Heq Hp.
    destruct (single_prefix _ p q Heq Hp) as [-> ->].
    vm_compute. split; discriminate.
  - lia.
  - vm_compute. discriminate.
  - reflexivity.
  - reflexivity.
Defined.

(** The claim as stated does not hold when the wallet cannot hand out a
    change address: the eligible output carries the requested amount plus
    the worst-case fee, 100000 + 308 * 10, yet [fundTx] returns the wallet's
    error and [CreateTransaction] returns no skeleton. *)
Lemma CreateTransaction_funded_counterexample :
  requested (pay 100000) + 308 * coin.AtomsValue (FeeRate (pay 100000))
  <= totalAmount (filter (eligible "default") singleUnspent) /\
  size_bounded size200 (skeleton (pay 100000))
               (filter (eligible "default") singleUnspent) 308 /\
  fundTx (stubAfter singleUnspent (Err walletLocked) 0
                    [CallListUnspent (Ok singleUnspent)])
         "default" singleUnspent (skeleton (pay 100000))
         (coin.mkAmount 100000) (coin.mkAmount 10) p2pkh size200
  = Returns (Some walletLocked,
             addInputs (skeleton (pay 100000)) singleUnspent,
             stubAfter singleUnspent (Err walletLocked) 1
               [CallListUnspent (Ok singleUnspent);
                CallGetNewAddress "default" (Err walletLocked)]) /\
  CreateTransaction (stubWorld singleUnspent (Err walletLocked)) (pay 100000)
  = Returns (None, Some walletLocked,
             stubAfter singleUnspent (Err walletLocked) 1
               [CallListUnspent (Ok singleUnspent);
                CallGetNewAddress "default" (Err walletLocked)]).
Proof.
  split; [vm_compute; discriminate|]. split; [|split; reflexivity].
  intros p q Heq Hp. destruct (single_prefix _ p q Heq Hp) as [-> ->].
  vm_compute. split; discriminate.
Qed.

Lemma fundTx_insufficient_funds_witness :
  fundTx (stubWorld [] (Ok "DsChange"%string)) "default" singleUnspent
         (skeleton (pay 200000)) (coin.mkAmount 200000) (coin.mkAmount 10)
         p2pkh size200
  = Returns (Some (Errorf "not enough funds for coin selection"),
             addInputs (skeleton (pay 200000)) singleUnspent,
             stubWorld [] (Ok "DsChange"%string)) /\
  CreateTransaction (stubWorld [] (Ok "DsChange"%string))
                    (request [payment 200000] 10 false p2pkh)
  = Returns (None, Some (Errorf "not enough funds for coin selection"),
             stubAfter [] (Ok "DsChange"%string) 0 [CallListUnspent (Ok [])]).
Proof.
  split.
  - apply (fundTx_insufficient_funds
             (stubWorld [] (Ok "DsChange"%string)) "default" singleUnspent
             (skeleton (pay 200000)) (coin.mkAmount 200000) (coin.mkAmount 10)
             p2pkh size200).
    + discriminate.
    + intros p q Heq Hp.
      destruct (single_prefix _ p q Heq Hp) as [-> ->]. reflexivity.
  - apply (fundTx_insufficient_funds
             (stubAfter [] (Ok "DsChange"%string) 0 [CallListUnspent (Ok [])])
             "default" [] (skeleton (pay 200000)) (coin.mkAmount 200000)
             (coin.mkAmount 10) p2pkh size200).
    + discriminate.
    + intros p q Heq Hp. destruct p; [congruence|discriminate].
    + reflexivity.
    + repeat split.
Defined.

Lemma fundTx_first_fit_witness :
  fundTx (stubWorld [] (Ok "DsChange"%string)) "default" mixedUnspent
         (skeleton (pay 100000)) (coin.mkAmount 100000) (coin.mkAmount 10)
         p2pkh size200
  = Returns (None, mixedFunded,
             stubAfter [] (Ok "DsChange"%string) 1 changeCalls) /\
  exists p,
    first_fit (covers size200 (coin.mkAmount 10) (coin.mkAmount 100000)
                      (skeleton (pay 100000)) (coin.mkAmount 0))
              (filter (eligible "default") mixedUnspent) p /\
    Tx_TxIn mixedFunded = Tx_TxIn (skeleton (pay 100000)) ++ map newTxIn p.
Proof.
  assert (Hrun : fundTx (stubWorld [] (Ok "DsChange"%string)) "default"
                        mixedUnspent (skeleton (pay 100000))
                        (coin.mkAmount 100000) (coin.mkAmount 10) p2pkh size200
                 = Returns (None, mixedFunded,
                            stubAfter [] (Ok "DsChange"%string) 1 changeCalls))
    by reflexivity.
  split; [exact Hrun|].
  apply (fundTx_first_fit _ _ _ _ _ _ _ _ _ _ _ Hrun).
  reflexivity.
Defined.

Lemma fundTx_change_output_witness :
  fundTx (stubWorld [] (Ok "DsChange"%string)) "default" singleUnspent
         (skeleton (pay 100000)) (coin.mkAmount 100000) (coin.mkAmount 10)
         p2pkh size200
  = Returns (None, singleFunded,
             stubAfter [] (Ok "DsChange"%string) 1 changeCalls) /\
  exists p,
    first_fit (covers size200 (coin.mkAmount 10) (coin.mkAmount 100000)
                      (skeleton (pay 100000)) (coin.mkAmount 0))
              (filter (eligible "default") singleUnspent) p /\
    Tx_TxIn singleFunded = Tx_TxIn (skeleton (pay 100000)) ++ map newTxIn p /\
    let selected := coin.AtomsValue (sumSelected (coin.mkAmount 0) p) in
    let requiredFee :=
      coin.AtomsValue (reqFee size200 (coin.mkAmount 10)
                              (addInputs (skeleton (pay 100000)) p)) in
    let change := Int64.sub (Int64.sub selected 100000) requiredFee in
    (0 < change ->
     (exists pkScript,
        Tx_TxOut singleFunded =
        [payment 100000] ++ [{| Value := coin.mkAmount change;
                                PkScript := pkScript |}]) /\
     addressRequests changeCalls = 1%nat /\
     mkStubWallet (Ok []) (Ok "DsChange"%string) 1
     = mkStubWallet (Ok []) (Ok "DsChange"%string) 1) /\
    (change <= 0 ->
     Tx_TxOut singleFunded = [payment 100000] /\
     stubAfter [] (Ok "DsChange"%string) 1 changeCalls
     = stubWorld [] (Ok "DsChange"%string)).
Proof.
  assert (Hrun : fundTx (stubWorld [] (Ok "DsChange"%string)) "default"
                        singleUnspent (skeleton (pay 100000))
                        (coin.mkAmount 100000) (coin.mkAmount 10) p2pkh size200
                 = Returns (None, singleFunded,
                            stubAfter [] (Ok "DsChange"%string) 1 changeCalls))
    by reflexivity.
  split; [exact Hrun|].
  exact (fundTx_change_output _ _ _ _ _ _ _ _ _ _ Hrun).
Defined.

Lemma fundTx_collaborator_error_witness :
  failed_with walletLocked [CallGetNewAddress "default" (Err walletLocked)] /\
  Some walletLocked = Some walletLocked /\
  Tx_TxOut (addInputs (skeleton (pay 100000)) singleUnspent)
  = Tx_TxOut (skeleton (pay 100000)) /\
  CreateTransaction (stubWorld singleUnspent (Err walletLocked)) (pay 100000)
  = Returns (None, Some walletLocked,
             stubAfter singleUnspent (Err walletLocked) 1
               [CallListUnspent (Ok singleUnspent);
                CallGetNewAddress "default" (Err walletLocked)]).
Proof.
  assert (Hfail : failed_with walletLocked
                    [CallGetNewAddress "default" (Err walletLocked)]).
  { left. exists "default"%string. left. reflexivity. }
  split; [exact Hfail|].
  assert (Hrun : fundTx (stubAfter singleUnspent (Err walletLocked) 0
                                   [CallListUnspent (Ok singleUnspent)])
                        "default" singleUnspent (skeleton (pay 100000))
                        (coin.mkAmount 100000) (coin.mkAmount 10) p2pkh size200
                 = Returns (Some walletLocked,
                            addInputs (skeleton (pay 100000)) singleUnspent,
                            stubAfter singleUnspent (Err walletLocked) 1
                              [CallListUnspent (Ok singleUnspent);
                               CallGetNewAddress "default" (Err walletLocked)]))
    by reflexivity.
  destruct (fundTx_collaborator_error _ _ _ _ _ _ _ _ _ _ _
              [CallGetNewAddress "default" (Err walletLocked)]
              walletLocked Hrun eq_refl Hfail)
    as (Hr & Hout & Hcreate).
  split; [exact Hr|]. split; [exact Hout|].
  apply Hcreate; [reflexivity | repeat split].
Defined.

Lemma fundTx_required_fee_witness :
  eligible "default" (utxo 150000 "default" true) = true /\
  reqFee size200 (coin.mkAmount 10)
         (appendTxIn (skeleton (pay 100000))
                     (newTxIn (utxo 150000 "default" true)))
  = coin.mkAmount 3080.
Proof.
  split; [reflexivity|].
  assert (Hel : eligible "default" (utxo 150000 "default" true) = true)
    by reflexivity.
  destruct (fundTx_required_fee
              (stubWorld [] (Ok "DsChange"%string)) "default"
              (utxo 150000 "default" true) [] (skeleton (pay 100000))
              (coin.mkAmount 0) (coin.mkAmount 100000) (coin.mkAmount 10)
              p2pkh size200 Hel)
    as (_ & _ & tx1 & size & fee & selected & -> & -> & _ & _ & -> & Hfee & _).
  exact Hfee.
Defined.

Lemma CreateTransaction_ignores_Change_witness :
  CreateTransaction (stubWorld singleUnspent (Ok "DsChange"%string))
                    (request [payment 100000] 10 false p2pkh)
  = CreateTransaction (stubWorld singleUnspent (Ok "DsChange"%string))
                      (pay 100000) /\
  exists unspent p,
    Ok singleUnspent = Ok unspent /\
    first_fit (covers size200 (coin.mkAmount 10) (coin.mkAmount 100000)
                      (skeleton (pay 100000)) (coin.mkAmount 0))
              (filter (eligible "default") unspent) p /\
    let selected := coin.AtomsValue (sumSelected (coin.mkAmount 0) p) in
    let requiredFee :=
      coin.AtomsValue (reqFee size200 (coin.mkAmount 10)
                              (addInputs (skeleton (pay 100000)) p)) in
    let change := Int64.sub (Int64.sub selected 100000) requiredFee in
    (0 < change ->
     exists pkScript,
       Tx_TxOut singleFunded
       = [payment 100000] ++ [{| Value := coin.mkAmount change;
                                 PkScript := pkScript |}]) /\
    (change <= 0 -> Tx_TxOut singleFunded = [payment 100000]).
Proof.
  destruct (CreateTransaction_ignores_Change
              (stubWorld singleUnspent (Ok "DsChange"%string))
              (pay 100000) false) as [Hsame Hchange].
  split; [exact Hsame|].
  apply (Hchange singleFunded
           (stubAfter singleUnspent (Ok "DsChange"%string) 1
                      (CallListUnspent (Ok singleUnspent) :: changeCalls))).
  reflexivity.
Defined.

Lemma Connect_retries_witness :
  (exists conn',
     RPC.Connect (RPC.mkRPCConnection 3 RPC.threeRefusals None RPC.Disconnected)
                 RPC.localhost None = (None, conn') /\
     RPC.state conn' = RPC.Connected /\
     RPC.IsConnected conn' = true /\
     RPC.rpcClient conn' = Some "client"%string) /\
  (exists conn',
     RPC.Connect (RPC.mkRPCConnection 2 RPC.threeRefusals None RPC.Disconnected)
                 RPC.localhost None
     = (Some (RPC.ConnectionEstablishmentFailure (Errorf "refused 3")), conn') /\
     RPC.state conn' = RPC.Disconnected /\
     RPC.IsConnected conn' = false /\
     RPC.rpcClient conn' = None).
Proof.
  assert (Hfts : forall retries,
             RPC.fails_then_succeeds RPC.localhost None
               (RPC.factory (RPC.mkRPCConnection retries RPC.threeRefusals None
                                                 RPC.Disconnected))
               RPC.threeRefusals "client"%string).
  { intros retries.
    repeat (eapply RPC.fails_first; [reflexivity|]).
    eapply RPC.succeeds_now. reflexivity. }
  split.
  - apply (proj1 (Connect_retries
                    (RPC.mkRPCConnection 3 RPC.threeRefusals None
                                         RPC.Disconnected)
                    RPC.localhost None RPC.threeRefusals "client"%string
                    eq_refl (Hfts 3%nat))).
    cbn. lia.
  - apply (proj2 (Connect_retries
                    (RPC.mkRPCConnection 2 RPC.threeRefusals None
                                         RPC.Disconnected)
                    RPC.localhost None RPC.threeRefusals "client"%string
                    eq_refl (Hfts 2%nat))).
    cbn. lia.
Defined.

(** * Further properties of the funding loop *)

Lemma first_fit_or_no_fit {A : Type} (l : list A) : forall ok,
  (exists p, first_fit ok l p) \/ no_fit ok l.
Proof.
  induction l as [|a l IH]; intros ok.
  - right. intros p q Hpq Hp. destruct p; [congruence|discriminate].
  - destruct (ok [a]) eqn:Ha.
    + left. exists [a]. split; [now exists l|]. split; [discriminate|].
      split; [exact Ha|].
      intros p' q' Heq Hp' Hq'. destruct p' as [|b p']; [congruence|].
      cbn in Heq. injection Heq as _ Heq.
      destruct p'; destruct q'; try discriminate; congruence.
    + destruct (IH (fun p => ok (a :: p))) as [[p Hff] | Hno].
      * destruct Hff as ([q Hq] & Hp & Hok & Hmin).
        left. exists (a :: p). split; [exists q; cbn; now rewrite Hq|].
        split; [discriminate|]. split; [exact Hok|].
        intros p' q' Heq Hp' Hq'. destruct p' as [|b p']; [congruence|].
        cbn in Heq. injection Heq as <- Heq.
        destruct p' as [|c p'']; [exact Ha|].
        apply (Hmin _ q'); [exact Heq|discriminate|exact Hq'].
      * right. intros p q Heq Hp. destruct p as [|b p]; [congruence|].
        cbn in Heq. injection Heq as <- Heq.
        destruct p as [|c p']; [exact Ha|].
        apply (Hno _ q); [exact Heq|discriminate].
Qed.

(** A prefix that passes has a shortest passing prefix inside it. *)
Lemma first_fit_within {A : Type} (ok : list A -> bool) (l p q : list A) :
  l = p ++ q -> p <> [] -> ok p = true ->
  exists p' r, first_fit ok l p' /\ p = p' ++ r.
Proof.
  intros Hl Hp Hok.
  destruct (first_fit_or_no_fit l ok) as [[p' Hff] | Hno].
  2:{ rewrite (Hno p q Hl Hp) in Hok. discriminate. }
  destruct Hff as ([q' Hq'] & Hp' & Hok' & Hmin).
  pose proof Hq' as Heq. rewrite Hl in Heq. apply app_eq_app in Heq.
  destruct Heq as [r [[Hr _] | [Hr _]]].
  - exists p', r. split; [|exact Hr].
    split; [now exists q'|]. now repeat split.
  - destruct r as [|a r].
    + rewrite app_nil_r in Hr. subst p'. exists p, [].
      split; [|now rewrite app_nil_r].
      split; [now exists q'|]. now repeat split.
    + rewrite (Hmin p (a :: r) Hr Hp) in Hok; [discriminate|discriminate].
Qed.

(** A shortest passing prefix stays one when the list is extended. *)
Lemma first_fit_app {A : Type} (ok : list A -> bool) (l more p : list A) :
  first_fit ok l p -> first_fit ok (l ++ more) p.
Proof.
  intros ([q Hq] & Hp & Hok & Hmin).
  split; [exists (q ++ more); now rewrite Hq, app_assoc|]. now repeat split.
Qed.

Section LoopFacts.

Context {W : Type} `{Wallet W}.

Variables (st : World W) (account : string) (amt feeRate : coin.Amount)
          (payToAddrScript : Address -> result (list Byte.byte))
          (serializeSize : MessageTx -> Z).

Lemma fundTx_loop_filter unspent : forall tx start,
  fundTx_loop st account unspent tx start amt feeRate payToAddrScript
              serializeSize =
  fundTx_loop st account (filter (eligible account) unspent) tx start amt
              feeRate payToAddrScript serializeSize.
Proof.
  induction unspent as [|u rest IH]; intros tx start; [reflexivity|].
  cbn [filter]. destruct (eligible account u) eqn:Hel.
  - rewrite !fundTx_loop_take by exact Hel.
    destruct (covers _ _ _ _ _ _); [reflexivity|apply IH].
  - rewrite fundTx_loop_skip by exact Hel. apply IH.
Qed.

(** What the loop returns once the shortest covering prefix is known. *)
Lemma fundTx_loop_at_fit unspent tx start p :
  first_fit (covers serializeSize feeRate amt tx start)
            (filter (eligible account) unspent) p ->
  fundTx_loop st account unspent tx start amt feeRate payToAddrScript
              serializeSize =
  addChange st account (addInputs tx p) (sumSelected start p) amt
            (reqFee serializeSize feeRate (addInputs tx p)) payToAddrScript.
Proof.
  intros Hff.
  destruct (fundTx_loop_inv st account amt feeRate payToAddrScript
              serializeSize unspent tx start)
    as [(p' & Hff' & Hrun) | (Hno & _)].
  - now rewrite (first_fit_unique _ _ _ _ Hff Hff').
  - destruct (first_fit_not_no_fit _ _ _ Hff Hno).
Qed.

(** X4. The loop composes over a concatenation.  When the first list is run
    through without covering the amount, the run on the concatenation is
    the run on the second list, started from the skeleton and the selected
    total the first list leaves: every eligible output of the first list is
    an input and is counted. *)
Theorem fundTx_loop_continues unspent : forall more tx start,
  no_fit (covers serializeSize feeRate amt tx start)
         (filter (eligible account) unspent) ->
  fundTx_loop st account (unspent ++ more) tx start amt feeRate
              payToAddrScript serializeSize =
  fundTx_loop st account more
              (addInputs tx (filter (eligible account) unspent))
              (sumSelected start (filter (eligible account) unspent))
              amt feeRate payToAddrScript serializeSize.
Proof.
  induction unspent as [|u rest IH]; intros more tx start Hno; [reflexivity|].
  cbn [app filter] in *. destruct (eligible account u) eqn:Hel.
  - rewrite fundTx_loop_take by exact Hel.
    rewrite (Hno [u] (filter (eligible account) rest) eq_refl)
      by discriminate.
    apply IH. intros p q Heq Hp.
    destruct p as [|v p]; [congruence|].
    change (covers serializeSize feeRate amt tx start (u :: v :: p) = false).
    apply (Hno (u :: v :: p) q); [|discriminate].
    cbn. now rewrite Heq.
  - rewrite fundTx_loop_skip by exact Hel. now apply IH.
Qed.

End LoopFacts.

(** X2. Outputs that are not spendable or belong to another account have no
    influence on [fundTx]: it returns the same skeleton, error and
    collaborator state as on the list without them. *)
Theorem fundTx_ineligible_irrelevant {W : Type} `{Wallet W}
    (st : World W) (account : string) (unspent : list Unspent)
    (tx : MessageTx) (amt feeRate : coin.Amount)
    (payToAddrScript : Address -> result (list Byte.byte))
    (serializeSize : MessageTx -> Z) :
  fundTx st account unspent tx amt feeRate payToAddrScript serializeSize =
  fundTx st account (filter (eligible account) unspent) tx amt feeRate
         payToAddrScript serializeSize.
Proof.
  unfold fundTx. destruct (String.eqb account ""); [reflexivity|].
  f_equal. apply fundTx_loop_filter.
Qed.

(** X3. Once a prefix of the eligible outputs covers the amount and the fee,
    the outputs listed after it are never looked at: [fundTx] returns the
    same on the list extended by any further outputs. *)
Theorem fundTx_later_outputs_irrelevant {W : Type} `{Wallet W}
    (st : World W) (account : string) (unspent more : list Unspent)
    (tx : MessageTx) (amt feeRate : coin.Amount)
    (payToAddrScript : Address -> result (list Byte.byte))
    (serializeSize : MessageTx -> Z) (p : list Unspent) :
  first_fit (covers serializeSize feeRate amt tx (coin.mkAmount 0))
            (filter (eligible account) unspent) p ->
  fundTx st account (unspent ++ more) tx amt feeRate payToAddrScript
         serializeSize =
  fundTx st account unspent tx amt feeRate payToAddrScript serializeSize.
Proof.
  intros Hff. unfold fundTx. destruct (String.eqb account ""); [reflexivity|].
  f_equal.
  rewrite (fundTx_loop_at_fit st account amt feeRate payToAddrScript
             serializeSize unspent tx (coin.mkAmount 0) p Hff).
  apply fundTx_loop_at_fit. rewrite filter_app. now apply first_fit_app.
Qed.


(** X5. With no eligible output in the list (an empty list included),
    [fundTx] reports insufficient funds whatever the amount and the fee
    rate are, also for an amount of zero or less; it leaves the skeleton as
    it was and calls no collaborator.  [CreateTransaction] then returns that
    error, even when no output was requested. *)
Theorem fundTx_nothing_eligible {W : Type} `{Wallet W}
    (st : World W) (account : string) (unspent : list Unspent) :
  account <> ""%string ->
  filter (eligible account) unspent = [] ->
  (forall tx amt feeRate payToAddrScript serializeSize,
     fundTx st account unspent tx amt feeRate payToAddrScript serializeSize
     = Returns (Some (Errorf "not enough funds for coin selection"), tx, st))
  /\
  (forall st0 args,
     callListUnspent st0 = (Ok unspent, st) ->
     Args_Account args = account ->
     CreateTransaction st0 args
     = Returns (None, Some (Errorf "not enough funds for coin selection"),
                st)).
Proof.
  intros Hacc Hnil.
  assert (Hf : forall tx amt feeRate payToAddrScript serializeSize,
             fundTx st account unspent tx amt feeRate payToAddrScript
                    serializeSize
             = Returns (Some (Errorf "not enough funds for coin selection"),
                        tx, st)).
  { intros. rewrite fundTx_nonempty_account by exact Hacc.
    rewrite fundTx_loop_filter, Hnil. reflexivity. }
  split; [exact Hf|].
  intros st0 args Hlist Hargs.
  rewrite (CreateTransaction_via_fundTx st0 st args account unspent
             (skeleton args) (tallied args) (FeeRate args)
             (PayToAddrScript args) (TxSerializeSize args) Hlist).
  - now rewrite Hf.
  - repeat split; [exact Hargs|apply tallied_skeleton].
Qed.

(** X6. Asking for less never takes more.  If for the amount [amt] the loop
    stops after the eligible outputs [p], then for any amount [amt'] not
    above [amt] the run stops after a prefix [p'] of [p]: it does not run
    through the list, what it returns is what the change block returns for
    the skeleton with the inputs of [p'], and its inputs are those of [p'],
    so they are among those for [amt], in the same order. *)
Theorem fundTx_smaller_amount {W : Type} `{Wallet W}
    (st : World W) (account : string) (unspent : list Unspent)
    (tx : MessageTx) (amt amt' feeRate : coin.Amount)
    (payToAddrScript : Address -> result (list Byte.byte))
    (serializeSize : MessageTx -> Z) (p : list Unspent) :
  account <> ""%string ->
  coin.AtomsValue amt' <= coin.AtomsValue amt ->
  first_fit (covers serializeSize feeRate amt tx (coin.mkAmount 0))
            (filter (eligible account) unspent) p ->
  exists p' q r' tx' st',
    p = p' ++ q /\
    first_fit (covers serializeSize feeRate amt' tx (coin.mkAmount 0))
              (filter (eligible account) unspent) p' /\
    fundTx st account unspent tx amt' feeRate payToAddrScript serializeSize
    = Returns (r', tx', st') /\
    (r', tx', st')
    = addChange st account (addInputs tx p')
                (sumSelected (coin.mkAmount 0) p') amt'
                (reqFee serializeSize feeRate (addInputs tx p'))
                payToAddrScript /\
    Tx_TxIn tx' = Tx_TxIn tx ++ map newTxIn p' /\
    (Tx_TxOut tx' = Tx_TxOut tx \/
     exists changeOutput, Tx_TxOut tx' = Tx_TxOut tx ++ [changeOutput]).
Proof.
  intros Hacc Hle Hff.
  destruct Hff as ([q Hq] & Hp & Hok & _).
  assert (Hok' : covers serializeSize feeRate amt' tx (coin.mkAmount 0) p
                 = true).
  { unfold covers in *. rewrite negb_true_iff, Z.ltb_ge in *. lia. }
  destruct (first_fit_within _ _ p q Hq Hp Hok') as (p' & r & Hff' & Hpr).
  pose proof (fundTx_loop_at_fit st account amt' feeRate payToAddrScript
                serializeSize unspent tx (coin.mkAmount 0) p' Hff') as Hloop.
  pose proof (addChange_TxIn st account amt' payToAddrScript
                (addInputs tx p') (sumSelected (coin.mkAmount 0) p')
                (reqFee serializeSize feeRate (addInputs tx p'))) as Hin.
  assert (Hout : let out := addChange st account (addInputs tx p')
                              (sumSelected (coin.mkAmount 0) p') amt'
                              (reqFee serializeSize feeRate (addInputs tx p'))
                              payToAddrScript in
                 Tx_TxOut (snd (fst out)) = Tx_TxOut tx \/
                 exists changeOutput,
                   Tx_TxOut (snd (fst out)) = Tx_TxOut tx ++ [changeOutput]).
  { cbn zeta. unfold addChange, callGetNewAddress, callPayToAddrScript.
    destruct (_ >? 0); [|left; apply addInputs_TxOut].
    destruct (GetNewAddress (wallet st) account) as [[addr|err] w'];
      [|left; apply addInputs_TxOut].
    destruct (payToAddrScript addr); [|left; apply addInputs_TxOut].
    right. eexists. cbn [fst snd appendTxOut Tx_TxOut].
    now rewrite addInputs_TxOut. }
  cbn zeta in Hout.
  destruct (addChange st account (addInputs tx p')
              (sumSelected (coin.mkAmount 0) p') amt'
              (reqFee serializeSize feeRate (addInputs tx p'))
              payToAddrScript) as [[r' tx'] st'] eqn:Hchange.
  cbn [fst snd] in Hin, Hout.
  exists p', r, r', tx', st'.
  split; [exact Hpr|]. split; [exact Hff'|].
  split; [rewrite fundTx_nonempty_account by exact Hacc; now rewrite Hloop|].
  split; [symmetry; exact Hchange|].
  split; [rewrite Hin; apply addInputs_TxIn|exact Hout].
Qed.

(** X7. [fundTx] never rewrites the outputs it is given.  Whatever it
    returns, the outputs of the skeleton are the given ones, followed on
    success by at most one change output; that output carries a positive
    [int64] value and the script that [PayToAddrScript] built for the
    address [GetNewAddress] returned for the account.  On every error the
    outputs are unchanged. *)
Theorem fundTx_outputs {W : Type} `{Wallet W}
    (st : World W) (account : string) (unspent : list Unspent)
    (tx : MessageTx) (amt feeRate : coin.Amount)
    (payToAddrScript : Address -> result (list Byte.byte))
    (serializeSize : MessageTx -> Z)
    (r : option error) (tx' : MessageTx) (st' : World W) :
  fundTx st account unspent tx amt feeRate payToAddrScript serializeSize
  = Returns (r, tx', st') ->
  Tx_TxOut tx' = Tx_TxOut tx \/
  (r = None /\
   exists addr pkScript c,
     GetNewAddress (wallet st) account = (Ok addr, wallet st') /\
     payToAddrScript addr = Ok pkScript /\
     0 < c <= Int64.max_int /\
     Tx_TxOut tx' =
     Tx_TxOut tx ++ [{| Value := coin.mkAmount c; PkScript := pkScript |}]).
Proof.
  intros Hrun. apply fundTx_returns in Hrun. destruct Hrun as [_ Hrun].
  inversion Hrun as [Hno | p Hff Hc | p err w' Hff Hc Hget
                     | p addr err w' Hff Hc Hget Hscr
                     | p addr pk w' Hff Hc Hget Hscr]; subst;
    try (left; apply addInputs_TxOut).
  right. split; [reflexivity|].
  exists addr, pk, (changeVal serializeSize feeRate amt tx (coin.mkAmount 0) p).
  split; [exact Hget|]. split; [exact Hscr|]. split.
  - split; [exact Hc|]. unfold changeVal, Int64.sub.
    apply wrap_in_range.
  - cbn [appendTxOut Tx_TxOut]. now rewrite addInputs_TxOut.
Qed.

(** X1. The calls [CreateTransaction] makes.  It asks the wallet for the
    unspent outputs once and first; if that fails it returns the error as
    it is and calls nothing else, without reaching the account assertion.
    Otherwise it makes no further call, or one [GetNewAddress] for the
    account, followed, only when an address came back, by one
    [PayToAddrScript] for that address.  It returns a skeleton or an error,
    never both and never neither. *)
Theorem CreateTransaction_calls {W : Type} `{Wallet W}
    (st : World W) (args : CreateTransactionArgs)
    (otx : option MessageTx) (oerr : option error) (st' : World W) :
  CreateTransaction st args = Returns (otx, oerr, st') ->
  (exists listed rest,
     calls st' = calls st ++ CallListUnspent listed :: rest /\
     match listed with
     | Err e => rest = [] /\ oerr = Some e
     | Ok _ =>
         rest = [] \/
         (exists e,
            rest = [CallGetNewAddress (Args_Account args) (Err e)] /\
            oerr = Some e) \/
         (exists addr e,
            rest = [CallGetNewAddress (Args_Account args) (Ok addr);
                    CallPayToAddrScript addr (Err e)] /\
            oerr = Some e) \/
         (exists addr pkScript,
            rest = [CallGetNewAddress (Args_Account args) (Ok addr);
                    CallPayToAddrScript addr (Ok pkScript)] /\
            oerr = None)
     end) /\
  (otx = None <-> oerr <> None).
Proof.
  unfold CreateTransaction, callListUnspent.
  destruct (ListUnspent (wallet st)) as [[unspent|e] w1].
  2:{ intros [= <- <- <-]. split; [|split; [discriminate|reflexivity]].
      exists (Err e), []. split; [reflexivity|]. now split. }
  rewrite tallied_skeleton.
  destruct (fundTx _ _ _ _ _ _ _ _) as [[[r tx2] st2]|tag] eqn:Hf;
    [|discriminate].
  apply fundTx_returns in Hf. destruct Hf as [_ Hf].
  intros Hret.
  assert (Hres : (otx, oerr, st')
                 = (match r with Some _ => None | None => Some tx2 end,
                    r, st2))
    by (destruct r; now injection Hret as <- <- <-).
  injection Hres as -> -> ->. clear Hret.
  split; [|destruct r; split; congruence].
  exists (Ok unspent).
  inversion Hf as [Hno | p Hff Hc | p err w' Hff Hc Hget
                   | p addr err w' Hff Hc Hget Hscr
                   | p addr pk w' Hff Hc Hget Hscr]; subst; cbn [calls].
  - exists []. split; [reflexivity|]. now left.
  - exists []. split; [reflexivity|]. now left.
  - eexists. split; [now rewrite <- app_assoc|].
    right; left. now exists err.
  - eexists. split; [now rewrite <- app_assoc|].
    right; right; left. now exists addr, err.
  - eexists. split; [now rewrite <- app_assoc|].
    right; right; right. now exists addr, pk.
Qed.

(** ** Value conservation in [int64] arithmetic *)

Lemma wrap_spec (z : Z) : exists k, Int64.wrap z = z + k * 2 ^ 64.
Proof.
  exists (- ((z + 2 ^ 63) / 2 ^ 64)). unfold Int64.wrap.
  rewrite Z.mod_eq by lia. lia.
Qed.

Lemma wrap_eq_of_diff (x y k : Z) :
  x = y + k * 2 ^ 64 -> Int64.wrap x = Int64.wrap y.
Proof.
  intros ->. apply wrap_congr. apply Z_mod_plus_full.
Qed.

Lemma wrap_unique (z v k : Z) :
  Int64.in_range v -> v = z + k * 2 ^ 64 -> Int64.wrap z = v.
Proof.
  intros Hv Hk. rewrite <- (wrap_small v Hv). symmetry.
  now apply (wrap_eq_of_diff v z k).
Qed.

Lemma sumSelected_spec (sel : list Unspent) : forall start,
  exists k,
    coin.AtomsValue (sumSelected start sel)
    = coin.AtomsValue start + totalAmount sel + k * 2 ^ 64.
Proof.
  induction sel as [|u sel IH]; intros start.
  - exists 0. cbn. lia.
  - cbn [sumSelected fold_left].
    destruct (IH (coin.mkAmount (Int64.add (coin.AtomsValue start)
                                           (coin.AtomsValue (Amount u)))))
      as [k Hk].
    unfold sumSelected in Hk. rewrite Hk. cbn [coin.AtomsValue].
    destruct (wrap_spec (coin.AtomsValue start + coin.AtomsValue (Amount u)))
      as [k1 Hk1].
    unfold Int64.add. rewrite Hk1. exists (k + k1).
    change (totalAmount (u :: sel))
      with (coin.AtomsValue (Amount u) + totalAmount sel). lia.
Qed.

Lemma tally_spec (outputs : list TxOut) : forall tx a,
  exists k,
    coin.AtomsValue (snd (tally outputs tx a))
    = coin.AtomsValue a
      + Zsum (map (fun o => coin.AtomsValue (Value o)) outputs) + k * 2 ^ 64.
Proof.
  induction outputs as [|o outputs IH]; intros tx a.
  - exists 0. cbn. lia.
  - cbn [tally].
    destruct (IH (appendTxOut tx o)
                 (coin.mkAmount (Int64.add (coin.AtomsValue a)
                                           (coin.AtomsValue (Value o)))))
      as [k Hk].
    rewrite Hk. cbn [coin.AtomsValue].
    destruct (wrap_spec (coin.AtomsValue a + coin.AtomsValue (Value o)))
      as [k1 Hk1].
    unfold Int64.add. rewrite Hk1. exists (k + k1).
    change (Zsum (map (fun o => coin.AtomsValue (Value o)) (o :: outputs)))
      with (coin.AtomsValue (Value o)
            + Zsum (map (fun o => coin.AtomsValue (Value o)) outputs)). lia.
Qed.

(** X8. Value is conserved in every skeleton [CreateTransaction] returns,
    in the [int64] arithmetic of the source and with no assumption on
    overflow: when the tallied amount is not negative, the input values sum
    to the output values plus the fee computed when the loop stopped,
    modulo 2^64. *)
Theorem CreateTransaction_conserves_value {W : Type} `{Wallet W}
    (st : World W) (args : CreateTransactionArgs)
    (tx' : MessageTx) (st' : World W) :
  0 <= coin.AtomsValue (tallied args) ->
  CreateTransaction st args = Returns (Some tx', None, st') ->
  Int64.wrap (sumInputs tx')
  = Int64.wrap
      (sumOutputs tx'
       + coin.AtomsValue
           (reqFee (TxSerializeSize args) (FeeRate args)
                   (mkMessageTx (Tx_TxIn tx') (Outputs args)))).
Proof.
  intros Hamt Hrun.
  apply CreateTransaction_success_inv in Hrun.
  destruct Hrun as (unspent & st1 & _ & Hf).
  apply fundTx_returns in Hf. destruct Hf as [_ Hf].
  set (S := TxSerializeSize args) in *.
  set (amt := tallied args) in *.
  destruct (tally_spec (Outputs args) (mkMessageTx [] []) (coin.mkAmount 0))
    as [k4 Hk4].
  fold (tallied args) in Hk4. fold amt in Hk4.
  fold (requested args) in Hk4. cbn [coin.AtomsValue] in Hk4.
  assert (Hshape : forall p,
            mkMessageTx (Tx_TxIn (addInputs (skeleton args) p)) (Outputs args)
            = addInputs (skeleton args) p).
  { intros p. change (Outputs args) with (Tx_TxOut (skeleton args)).
    apply skeleton_addInputs. }
  inversion Hf as [Hno | p Hff Hc | p err w' Hff Hc Hget
                   | p addr err w' Hff Hc Hget Hscr
                   | p addr pk w' Hff Hc Hget Hscr]; subst tx'.
  - (* no change output *)
    rewrite Hshape, sumInputs_addInputs, sumOutputs_addInputs.
    change (sumInputs (skeleton args)) with 0.
    change (sumOutputs (skeleton args)) with (requested args).
    destruct Hff as (_ & _ & Hok & _).
    unfold covers in Hok. rewrite negb_true_iff, Z.ltb_ge in Hok.
    unfold changeVal in Hc.
    set (fee := coin.AtomsValue
                  (reqFee S (FeeRate args) (addInputs (skeleton args) p))) in *.
    destruct (sumSelected_spec p (coin.mkAmount 0)) as [k3 Hk3].
    cbn [coin.AtomsValue] in Hk3.
    set (sel := coin.AtomsValue (sumSelected (coin.mkAmount 0) p)) in *.
    unfold Int64.sub in Hok, Hc.
    destruct (wrap_spec (sel - fee)) as [k2 Hk2].
    destruct (wrap_spec (sel - coin.AtomsValue amt)) as [k1 Hk1].
    pose proof (wrap_in_range (sel - fee)) as Hrange.
    assert (Hchange : Int64.wrap (Int64.wrap (sel - coin.AtomsValue amt) - fee)
                      = Int64.wrap (sel - fee) - coin.AtomsValue amt).
    { apply (wrap_unique _ _ (k2 - k1)).
      - unfold Int64.in_range, Int64.min_int, Int64.max_int in *. lia.
      - rewrite Hk1, Hk2. lia. }
    rewrite Hchange in Hc.
    apply (wrap_eq_of_diff _ _ (k4 - k2 - k3)). lia.
  - (* a change output *)
    cbn [appendTxOut Tx_TxIn]. rewrite Hshape.
    change (mkMessageTx (Tx_TxIn (addInputs (skeleton args) p))
                        (Tx_TxOut (addInputs (skeleton args) p) ++ ?[o]))
      with (appendTxOut (addInputs (skeleton args) p)
              {| Value := coin.mkAmount
                            (changeVal S (FeeRate args) amt (skeleton args)
                                       (coin.mkAmount 0) p);
                 PkScript := pk |}).
    rewrite sumInputs_appendTxOut, sumOutputs_appendTxOut.
    rewrite sumInputs_addInputs, sumOutputs_addInputs.
    change (sumInputs (skeleton args)) with 0.
    change (sumOutputs (skeleton args)) with (requested args).
    cbn [Value coin.AtomsValue]. unfold changeVal.
    set (fee := coin.AtomsValue
                  (reqFee S (FeeRate args) (addInputs (skeleton args) p))) in *.
    destruct (sumSelected_spec p (coin.mkAmount 0)) as [k3 Hk3].
    cbn [coin.AtomsValue] in Hk3.
    set (sel := coin.AtomsValue (sumSelected (coin.mkAmount 0) p)) in *.
    unfold Int64.sub.
    destruct (wrap_spec (sel - coin.AtomsValue amt)) as [k1 Hk1].
    destruct (wrap_spec (Int64.wrap (sel - coin.AtomsValue amt) - fee))
      as [k5 Hk5].
    rewrite Hk5, Hk1.
    apply (wrap_eq_of_diff _ _ (k4 - k3 - k1 - k5)). lia.
Qed.

(** * Waiting for the wallet to sync *)

Section SyncFacts.

Import consolewallet.

Context {C : Type} `{RPCClient C}.

Lemma SyncedHeight_ok (c c1 : C) (log : list Event) (b : Hash * Z) :
  GetBestBlock c = (Ok b, c1) ->
  SyncedHeight (mkSession c log)
  = (Returns (snd b), mkSession c1 (log ++ [EvGetBestBlock (Ok b)])).
Proof.
  intros Hget. unfold SyncedHeight. cbn [client events].
  rewrite Hget. now destruct b.
Qed.

Lemma nondecreasing_step (from : Z) (c c1 : C) (b : Hash * Z) :
  nondecreasing from c ->
  GetBestBlock c = (Ok b, c1) ->
  from <= snd b /\ nondecreasing (snd b) c1.
Proof.
  intros Hnd Hget. split.
  - apply (Hnd [b] c1). econstructor; [exact Hget|constructor].
  - intros bs c' Hreads.
    apply (Hnd (b :: bs) c'). econstructor; eassumption.
Qed.

(** X10. [Sync] returns the height read right after the first height, among
    those it tests, that is not below the desired one.  If the client
    reports, for each of [k] rounds, a tested height below the desired one
    and a height that is printed, then a tested height [t] not below it and
    one more height [h], then [Sync] returns [h] after [2k+2] calls of
    [GetBestBlock] and [k] sleeps of 1000 ms, with one line printed per
    round. *)
Theorem Sync_returns (desiredHeight : Z) (t h : Hash * Z) (c' : C)
    (waits : list ((Hash * Z) * (Hash * Z))) : forall fuel s,
  reads (client s) (flat_map (fun w => [fst w; snd w]) waits ++ [t; h]) c' ->
  Forall (fun w => snd (fst w) < desiredHeight) waits ->
  desiredHeight <= snd t ->
  (List.length waits <= fuel)%nat ->
  Sync fuel s desiredHeight
  = Some (Returns (snd h),
          mkSession c' (events s ++ flat_map roundEvents waits
                                 ++ [EvGetBestBlock (Ok t);
                                     EvGetBestBlock (Ok h)])).
Proof.
  induction waits as [|w waits IH]; intros fuel [c log] Hreads Hlow Hhigh Hfuel;
    cbn [client events] in *.
  - cbn [flat_map app] in *.
    inversion Hreads as [|? ? c1 ? ? Hget1 Hrest]; subst.
    inversion Hrest as [|? ? c2 ? ? Hget2 Hnil]; subst.
    inversion Hnil; subst.
    assert (Htest : (snd t <? desiredHeight) = false)
      by (apply Z.ltb_ge; lia).
    destruct fuel; cbn [Sync];
      rewrite (SyncedHeight_ok c c1 log t Hget1), Htest;
      rewrite (SyncedHeight_ok c1 c' _ h Hget2);
      now rewrite <- app_assoc.
  - cbn [flat_map app] in Hreads.
    inversion Hreads as [|? ? c1 ? ? Hget1 Hrest]; subst.
    inversion Hrest as [|? ? c2 ? ? Hget2 Hmore]; subst.
    inversion Hlow as [|? ? Hw Hlow']; subst.
    destruct fuel as [|fuel]; [cbn in Hfuel; lia|].
    assert (Htest : (snd (fst w) <? desiredHeight) = true)
      by (apply Z.ltb_lt; lia).
    cbn [Sync]. rewrite (SyncedHeight_ok c c1 log (fst w) Hget1), Htest.
    unfold record. cbn [client events].
    rewrite (SyncedHeight_ok c1 c2 _ (snd w) Hget2). cbn [client events].
    rewrite (IH fuel); cbn [client events];
      [|exact Hmore|exact Hlow'|exact Hhigh|cbn in Hfuel; lia].
    cbn [flat_map roundEvents app]. now rewrite <- !app_assoc.
Qed.

(** X11. When the heights the client reports never go down, the height
    [Sync] returns is at least the desired one.  The height returned is read
    after the one that was tested, so this needs the assumption. *)
Theorem Sync_reaches_desired (desiredHeight : Z) : forall fuel s from h s',
  nondecreasing from (client s) ->
  Sync fuel s desiredHeight = Some (Returns h, s') ->
  desiredHeight <= h.
Proof.
  assert (Hlast : forall s1 from h s',
            nondecreasing from (client s1) ->
            desiredHeight <= from ->
            Some (SyncedHeight s1) = Some (Returns h, s') ->
            desiredHeight <= h).
  { intros s1 from h s' Hnd Hfrom Hret. unfold SyncedHeight in Hret.
    destruct (GetBestBlock (client s1)) as [[b|[msg]] c2] eqn:Hget;
      [|discriminate].
    destruct (nondecreasing_step _ _ _ _ Hnd Hget) as [Hb _].
    destruct b as [hash hb]. injection Hret as <- _. cbn in Hb. lia. }
  assert (Hfirst : forall fuel s from h s',
            nondecreasing from (client s) ->
            Sync fuel s desiredHeight = Some (Returns h, s') ->
            exists hash0 h0 c1,
              GetBestBlock (client s) = (Ok (hash0, h0), c1) /\
              nondecreasing h0 c1).
  { intros fuel s from h s' Hnd Hret.
    destruct (GetBestBlock (client s)) as [[[hash0 h0]|[msg]] c1] eqn:Hget1.
    - exists hash0, h0, c1. split; [reflexivity|].
      apply (nondecreasing_step _ _ _ _ Hnd Hget1).
    - destruct fuel; cbn [Sync] in Hret; unfold SyncedHeight in Hret;
        rewrite Hget1 in Hret; discriminate Hret. }
  induction fuel as [|fuel IH]; intros [c log] from h s' Hnd Hret;
    destruct (Hfirst _ _ _ _ _ Hnd Hret) as (hash0 & h0 & c1 & Hget1 & Hnd1);
    cbn [client] in *; cbn [Sync] in Hret;
    rewrite (SyncedHeight_ok c c1 log _ Hget1) in Hret; cbn [snd] in Hret;
    destruct (h0 <? desiredHeight) eqn:Htest.
  - discriminate Hret.
  - apply Z.ltb_ge in Htest. apply (Hlast (mkSession c1 _) h0 h s' Hnd1 Htest Hret).
  - unfold record in Hret. cbn [client events] in Hret.
    unfold SyncedHeight in Hret at 1. cbn [client events] in Hret.
    destruct (GetBestBlock c1) as [[b|[msg]] c2] eqn:Hget2;
      [|discriminate Hret].
    destruct (nondecreasing_step _ _ _ _ Hnd1 Hget2) as [_ Hnd2].
    destruct b as [hash1 h1]. cbn [client events snd] in *.
    apply (IH (mkSession c2 _) h1 h s' Hnd2 Hret).
  - apply Z.ltb_ge in Htest. apply (Hlast (mkSession c1 _) h0 h s' Hnd1 Htest Hret).
Qed.

End SyncFacts.

(** A chain that loses blocks between the test and the last reading:
    [Sync] for height 5 returns 3. *)
Example Sync_below_desired :
  consolewallet.Sync 0 (consolewallet.mkSession [5; 3] []) 5
  = Some (Returns 3,
          consolewallet.mkSession []
            [consolewallet.EvGetBestBlock (Ok (HashOf "tip", 5));
             consolewallet.EvGetBestBlock (Ok (HashOf "tip", 3))]).
Proof. reflexivity. Qed.

(** * The further properties on concrete runs *)

Lemma first_fit_single {A : Type} (ok : list A -> bool) (a : A) (l : list A) :
  ok [a] = true -> first_fit ok (a :: l) [a].
Proof.
  intros Hok. split; [now exists l|]. split; [discriminate|].
  split; [exact Hok|].
  intros p' q' Heq Hp' Hq'. destruct p' as [|b p']; [congruence|].
  cbn in Heq. injection Heq as _ Heq.
  destruct p'; destruct q'; try discriminate; congruence.
Qed.

Lemma first_fit_pair {A : Type} (ok : list A -> bool) (a b : A) (l : list A) :
  ok [a] = false -> ok [a; b] = true -> first_fit ok (a :: b :: l) [a; b].
Proof.
  intros Ha Hab. split; [now exists l|]. split; [discriminate|].
  split; [exact Hab|].
  intros p' q' Heq Hp' Hq'. destruct p' as [|c p']; [congruence|].
  cbn in Heq. injection Heq as <- Heq.
  destruct p' as [|d p']; [exact Ha|].
  cbn in Heq. injection Heq as _ Heq.
  destruct p'; destruct q'; try discriminate; congruence.
Qed.

Lemma growing_nondecreasing (bs : list (Hash * Z)) :
  forall (n : consolewallet.Growing) (from : Z) c',
    from <= n ->
    consolewallet.reads n bs c' ->
    consolewallet.ascending from (map snd bs).
Proof.
  induction bs as [|b bs IH]; intros n from c' Hle Hreads; [exact I|].
  inversion Hreads as [|? ? c1 ? ? Hget Hrest]; subst.
  cbn in Hget. injection Hget as <- <-.
  cbn [map snd consolewallet.ascending]. split; [exact Hle|].
  apply (IH (n + 1) n c'); [lia|exact Hrest].
Qed.

Lemma fundTx_later_outputs_irrelevant_witness :
  fundTx (stubWorld [] (Ok "DsChange"%string)) "default"
         (singleUnspent ++ [utxo 90000 "default" true])
         (skeleton (pay 100000)) (coin.mkAmount 100000) (coin.mkAmount 10)
         p2pkh size200
  = fundTx (stubWorld [] (Ok "DsChange"%string)) "default" singleUnspent
           (skeleton (pay 100000)) (coin.mkAmount 100000) (coin.mkAmount 10)
           p2pkh size200.
Proof.
  apply (fundTx_later_outputs_irrelevant
           (stubWorld [] (Ok "DsChange"%string)) "default" singleUnspent
           [utxo 90000 "default" true] (skeleton (pay 100000))
           (coin.mkAmount 100000) (coin.mkAmount 10) p2pkh size200
           singleUnspent).
  apply first_fit_single. reflexivity.
Defined.

Lemma fundTx_loop_continues_witness :
  fundTx_loop (stubWorld [] (Ok "DsChange"%string)) "default"
              ([utxo 60000 "default" true] ++ [utxo 150000 "default" true])
              (skeleton (pay 100000)) (coin.mkAmount 0)
              (coin.mkAmount 100000) (coin.mkAmount 10) p2pkh size200
  = fundTx_loop (stubWorld [] (Ok "DsChange"%string)) "default"
                [utxo 150000 "default" true]
                (addInputs (skeleton (pay 100000))
                           [utxo 60000 "default" true])
                (coin.mkAmount 60000)
                (coin.mkAmount 100000) (coin.mkAmount 10) p2pkh size200.
Proof.
  apply (fundTx_loop_continues
           (stubWorld [] (Ok "DsChange"%string)) "default"
           (coin.mkAmount 100000) (coin.mkAmount 10) p2pkh size200
           [utxo 60000 "default" true] [utxo 150000 "default" true]
           (skeleton (pay 100000)) (coin.mkAmount 0)).
  intros p q Heq Hp.
  destruct (single_prefix _ p q Heq Hp) as [-> ->]. reflexivity.
Defined.

Lemma fundTx_nothing_eligible_witness :
  fundTx (stubWorld [] (Ok "DsChange"%string)) "default"
         [utxo 60000 "other" true; utxo 70000 "default" false]
         (skeleton (pay 0)) (coin.mkAmount (-5)) (coin.mkAmount 10)
         p2pkh size200
  = Returns (Some (Errorf "not enough funds for coin selection"),
             skeleton (pay 0), stubWorld [] (Ok "DsChange"%string)) /\
  CreateTransaction (stubWorld [] (Ok "DsChange"%string))
                    (request [] 0 false p2pkh)
  = Returns (None, Some (Errorf "not enough funds for coin selection"),
             stubAfter [] (Ok "DsChange"%string) 0 [CallListUnspent (Ok [])]).
Proof.
  split.
  - apply (fundTx_nothing_eligible
             (stubWorld [] (Ok "DsChange"%string)) "default"
             [utxo 60000 "other" true; utxo 70000 "default" false]);
      [discriminate|reflexivity].
  - apply (proj2 (fundTx_nothing_eligible
                    (stubAfter [] (Ok "DsChange"%string) 0
                               [CallListUnspent (Ok [])])
                    "default" [] ltac:(discriminate) eq_refl));
      reflexivity.
Defined.

Lemma fundTx_smaller_amount_witness :
  fundTx (stubWorld [] (Ok "DsChange"%string)) "default" mixedUnspent
         (skeleton (pay 50000)) (coin.mkAmount 50000) (coin.mkAmount 10)
         p2pkh size200
  = Returns (None,
             {| Tx_TxIn := [newTxIn (utxo 60000 "default" true)];
                Tx_TxOut := [payment 50000; changeOutput 6920] |},
             stubAfter [] (Ok "DsChange"%string) 1 changeCalls).
Proof.
  assert (Hff : first_fit
                  (covers size200 (coin.mkAmount 10) (coin.mkAmount 100000)
                          (skeleton (pay 50000)) (coin.mkAmount 0))
                  (filter (eligible "default") mixedUnspent)
                  [utxo 60000 "default" true; utxo 150000 "default" true])
    by (apply first_fit_pair; reflexivity).
  assert (Hle : coin.AtomsValue (coin.mkAmount 50000)
                <= coin.AtomsValue (coin.mkAmount 100000))
    by (cbn; lia).
  assert (Hacc : "default"%string <> ""%string) by discriminate.
  destruct (fundTx_smaller_amount
              (stubWorld [] (Ok "DsChange"%string)) "default" mixedUnspent
              (skeleton (pay 50000)) (coin.mkAmount 100000)
              (coin.mkAmount 50000) (coin.mkAmount 10) p2pkh size200
              [utxo 60000 "default" true; utxo 150000 "default" true]
              Hacc Hle Hff)
    as (p' & q & r' & tx' & st' & _ & Hff' & Hrun & Hchange & _).
  assert (Hp' : p' = [utxo 60000 "default" true]).
  { apply (first_fit_unique _ _ _ _ Hff').
    apply first_fit_single. reflexivity. }
  subst p'. rewrite Hrun, Hchange. reflexivity.
Defined.

Lemma fundTx_outputs_witness :
  Tx_TxOut singleFunded = Tx_TxOut (skeleton (pay 100000)) \/
  (@None error = None /\
   exists addr pkScript c,
     GetNewAddress (mkStubWallet (Ok []) (Ok "DsChange"%string) 0) "default"
     = (Ok addr, mkStubWallet (Ok []) (Ok "DsChange"%string) 1) /\
     p2pkh addr = Ok pkScript /\
     0 < c <= Int64.max_int /\
     Tx_TxOut singleFunded
     = [payment 100000] ++ [{| Value := coin.mkAmount c;
                               PkScript := pkScript |}]).
Proof.
  assert (Hrun : fundTx (stubWorld [] (Ok "DsChange"%string)) "default"
                        singleUnspent (skeleton (pay 100000))
                        (coin.mkAmount 100000) (coin.mkAmount 10) p2pkh size200
                 = Returns (None, singleFunded,
                            stubAfter [] (Ok "DsChange"%string) 1 changeCalls))
    by reflexivity.
  exact (fundTx_outputs _ _ _ _ _ _ _ _ _ _ _ Hrun).
Defined.

Lemma CreateTransaction_calls_witness :
  (exists listed rest,
     CallListUnspent (Ok singleUnspent) :: changeCalls
     = [] ++ CallListUnspent listed :: rest /\
     match listed with
     | Err e => rest = [] /\ @None error = Some e
     | Ok _ =>
         rest = [] \/
         (exists e,
            rest = [CallGetNewAddress "default" (Err e)] /\
            @None error = Some e) \/
         (exists addr e,
            rest = [CallGetNewAddress "default" (Ok addr);
                    CallPayToAddrScript addr (Err e)] /\
            @None error = Some e) \/
         (exists addr pkScript,
            rest = [CallGetNewAddress "default" (Ok addr);
                    CallPayToAddrScript addr (Ok pkScript)] /\
            @None error = None)
     end) /\
  (Some singleFunded = None <-> @None error <> None).
Proof.
  assert (Hrun : CreateTransaction
                   (stubWorld singleUnspent (Ok "DsChange"%string))
                   (pay 100000)
                 = Returns (Some singleFunded, None,
                            stubAfter singleUnspent (Ok "DsChange"%string) 1
                              (CallListUnspent (Ok singleUnspent)
                               :: changeCalls)))
    by reflexivity.
  exact (CreateTransaction_calls _ _ _ _ _ Hrun).
Defined.

Lemma CreateTransaction_conserves_value_witness :
  0 <= coin.AtomsValue (tallied (pay 100000)) /\
  Int64.wrap (sumInputs singleFunded)
  = Int64.wrap
      (sumOutputs singleFunded
       + coin.AtomsValue
           (reqFee size200 (coin.mkAmount 10)
                   (mkMessageTx (Tx_TxIn singleFunded) [payment 100000]))).
Proof.
  assert (Hamt : 0 <= coin.AtomsValue (tallied (pay 100000)))
    by (vm_compute; discriminate).
  assert (Hrun : CreateTransaction
                   (stubWorld singleUnspent (Ok "DsChange"%string))
                   (pay 100000)
                 = Returns (Some singleFunded, None,
                            stubAfter singleUnspent (Ok "DsChange"%string) 1
                              (CallListUnspent (Ok singleUnspent)
                               :: changeCalls)))
    by reflexivity.
  split; [exact Hamt|].
  exact (CreateTransaction_conserves_value _ _ _ _ Hamt Hrun).
Defined.

Lemma Sync_returns_witness :
  consolewallet.Sync 2 (consolewallet.mkSession (3 : consolewallet.Growing) [])
                     6
  = Some (Returns 8,
          consolewallet.mkSession (9 : consolewallet.Growing)
            ([] ++ flat_map consolewallet.roundEvents
                     [((HashOf "tip", 3), (HashOf "tip", 4));
                      ((HashOf "tip", 5), (HashOf "tip", 6))]
                ++ [consolewallet.EvGetBestBlock (Ok (HashOf "tip", 7));
                    consolewallet.EvGetBestBlock (Ok (HashOf "tip", 8))])).
Proof.
  apply (Sync_returns 6
           (HashOf "tip", 7) (HashOf "tip", 8) (9 : consolewallet.Growing)
           [((HashOf "tip", 3), (HashOf "tip", 4));
            ((HashOf "tip", 5), (HashOf "tip", 6))]
           2 (consolewallet.mkSession (3 : consolewallet.Growing) [])).
  - repeat (eapply consolewallet.reads_cons; [reflexivity|]).
    apply consolewallet.reads_nil.
  - repeat constructor.
  - cbn. lia.
  - cbn. lia.
Defined.

Lemma Sync_reaches_desired_witness :
  consolewallet.nondecreasing 0 (3 : consolewallet.Growing) /\ 6 <= 8.
Proof.
  assert (Hnd : consolewallet.nondecreasing 0 (3 : consolewallet.Growing)).
  { intros bs c' Hreads. apply (growing_nondecreasing bs 3 0 c'); [lia|].
    exact Hreads. }
  split; [exact Hnd|].
  assert (Hrun : consolewallet.Sync 2
                   (consolewallet.mkSession (3 : consolewallet.Growing) []) 6
                 = Some (Returns 8,
                         consolewallet.mkSession (9 : consolewallet.Growing)
                           (flat_map consolewallet.roundEvents
                              [((HashOf "tip", 3), (HashOf "tip", 4));
                               ((HashOf "tip", 5), (HashOf "tip", 6))]
                            ++ [consolewallet.EvGetBestBlock
                                  (Ok (HashOf "tip", 7));
                                consolewallet.EvGetBestBlock
                                  (Ok (HashOf "tip", 8))])))
    by reflexivity.
  exact (Sync_reaches_desired 6 2
           (consolewallet.mkSession (3 : consolewallet.Growing) [])
           0 8 _ Hnd Hrun).
Defined.

(** * The fee that is paid *)

Lemma requested_nonneg (args : CreateTransactionArgs) :
  Forall (fun o => 0 < coin.AtomsValue (Value o)) (Outputs args) ->
  0 <= requested args.
Proof.
  unfold requested. induction 1 as [|o l Ho _ IH]; [cbn; lia|].
  change (Zsum (map (fun o => coin.AtomsValue (Value o)) (o :: l)))
    with (coin.AtomsValue (Value o)
          + Zsum (map (fun o => coin.AtomsValue (Value o)) l)). lia.
Qed.

(** X9. Without overflow nothing is lost and nothing is created.  In a
    skeleton [CreateTransaction] returns, when the requested values are
    positive, the fee rate, the eligible amounts and the sizes are not
    negative and the totals fit an [int64], the input values sum exactly to
    the output values plus the fee computed when the loop stopped; that fee
    is the one of the skeleton before the change output was added. *)
Theorem CreateTransaction_fee_exact {W : Type} `{Wallet W}
    (st st1 : World W) (args : CreateTransactionArgs)
    (unspent : list Unspent) (maxSize : Z)
    (tx' : MessageTx) (st' : World W) :
  callListUnspent st = (Ok unspent, st1) ->
  CreateTransaction st args = Returns (Some tx', None, st') ->
  Forall (fun o => 0 < coin.AtomsValue (Value o)) (Outputs args) ->
  requested args <= Int64.max_int ->
  0 <= coin.AtomsValue (FeeRate args) ->
  Forall (fun u => 0 <= coin.AtomsValue (Amount u))
         (filter (eligible (Args_Account args)) unspent) ->
  totalAmount (filter (eligible (Args_Account args)) unspent)
  <= Int64.max_int ->
  size_bounded (TxSerializeSize args) (skeleton args)
               (filter (eligible (Args_Account args)) unspent) maxSize ->
  maxSize * coin.AtomsValue (FeeRate args) <= Int64.max_int ->
  sumInputs tx'
  = sumOutputs tx'
    + coin.AtomsValue (reqFee (TxSerializeSize args) (FeeRate args)
                              (mkMessageTx (Tx_TxIn tx') (Outputs args))).
Proof.
  intros Hlist Hrun Hpos Hreq Hrate Hamounts Htotal Hsizes HmaxFee.
  apply CreateTransaction_success_inv in Hrun.
  destruct Hrun as (unspent0 & st0 & Hlist0 & Hf).
  rewrite Hlist in Hlist0. injection Hlist0 as <- <-.
  rewrite (tallied_requested args Hpos Hreq) in Hf.
  apply fundTx_returns in Hf. destruct Hf as [_ Hf].
  pose proof (requested_nonneg args Hpos) as Hreq0.
  set (E := filter (eligible (Args_Account args)) unspent) in *.
  set (S := TxSerializeSize args) in *.
  set (amt := coin.mkAmount (requested args)) in *.
  assert (Hamt : 0 <= coin.AtomsValue amt <= Int64.max_int)
    by (cbn [amt coin.AtomsValue]; lia).
  assert (Hkey : forall p,
            first_fit (covers S (FeeRate args) amt (skeleton args)
                              (coin.mkAmount 0)) E p ->
            totalAmount p
            = requested args
              + changeVal S (FeeRate args) amt (skeleton args)
                          (coin.mkAmount 0) p
              + coin.AtomsValue (reqFee S (FeeRate args)
                                        (addInputs (skeleton args) p))).
  { intros p ([q Hq] & Hp & Hok & _).
    rewrite (prefix_change S (FeeRate args) (skeleton args) E maxSize Hrate
               Hamounts Htotal Hsizes HmaxFee amt p q Hq Hp Hamt Hok).
    cbn [amt coin.AtomsValue]. lia. }
  assert (Hshape : forall p,
            mkMessageTx (Tx_TxIn (addInputs (skeleton args) p)) (Outputs args)
            = addInputs (skeleton args) p).
  { intros p. change (Outputs args) with (Tx_TxOut (skeleton args)).
    apply skeleton_addInputs. }
  inversion Hf as [Hno | p Hff Hc | p err w' Hff Hc Hget
                   | p addr err w' Hff Hc Hget Hscr
                   | p addr pk w' Hff Hc Hget Hscr]; subst tx'.
  - pose proof (Hkey p Hff) as Hsum.
    assert (Hc0 : 0 <= changeVal S (FeeRate args) amt (skeleton args)
                                 (coin.mkAmount 0) p).
    { destruct Hff as ([q Hq] & Hp & Hok & _).
      rewrite (prefix_change S (FeeRate args) (skeleton args) E maxSize Hrate
                 Hamounts Htotal Hsizes HmaxFee amt p q Hq Hp Hamt Hok).
      apply (prefix_covers S (FeeRate args) (skeleton args) E maxSize Hrate
               Hamounts Htotal Hsizes HmaxFee amt p q Hq Hp Hamt) in Hok.
      lia. }
    rewrite Hshape, sumInputs_addInputs, sumOutputs_addInputs.
    change (sumInputs (skeleton args)) with 0.
    change (sumOutputs (skeleton args)) with (requested args).
    lia.
  - pose proof (Hkey p Hff) as Hsum.
    cbn [appendTxOut Tx_TxIn]. rewrite Hshape.
    change (mkMessageTx (Tx_TxIn (addInputs (skeleton args) p))
                        (Tx_TxOut (addInputs (skeleton args) p) ++ ?[o]))
      with (appendTxOut (addInputs (skeleton args) p)
              {| Value := coin.mkAmount
                            (changeVal S (FeeRate args) amt (skeleton args)
                                       (coin.mkAmount 0) p);
                 PkScript := pk |}).
    rewrite sumInputs_appendTxOut, sumOutputs_appendTxOut.
    rewrite sumInputs_addInputs, sumOutputs_addInputs.
    change (sumInputs (skeleton args)) with 0.
    change (sumOutputs (skeleton args)) with (requested args).
    cbn [Value coin.AtomsValue]. lia.
Qed.

Lemma CreateTransaction_fee_exact_witness :
  sumInputs singleFunded
  = sumOutputs singleFunded
    + coin.AtomsValue (reqFee size200 (coin.mkAmount 10)
                              (mkMessageTx (Tx_TxIn singleFunded)
                                           [payment 100000])).
Proof.
  assert (Hrun : CreateTransaction
                   (stubWorld singleUnspent (Ok "DsChange"%string))
                   (pay 100000)
                 = Returns (Some singleFunded, None,
                            stubAfter singleUnspent (Ok "DsChange"%string) 1
                              (CallListUnspent (Ok singleUnspent)
                               :: changeCalls)))
    by reflexivity.
  assert (Hlist : callListUnspent
                    (stubWorld singleUnspent (Ok "DsChange"%string))
                  = (Ok singleUnspent,
                     stubAfter singleUnspent (Ok "DsChange"%string) 0
                               [CallListUnspent (Ok singleUnspent)]))
    by reflexivity.
  apply (CreateTransaction_fee_exact _ _ _ _ 308 _ _ Hlist Hrun).
  - repeat constructor.
  - vm_compute. discriminate.
  - vm_compute. discriminate.
  - repeat constructor. vm_compute. discriminate.
  - vm_compute. discriminate.
  - intros p q Heq Hp.
    destruct (single_prefix _ p q Heq Hp) as [-> ->].
    vm_compute. split; discriminate.
  - vm_compute. discriminate.
Defined.

(** * Inputs built on a concrete run *)

(** The input built from an output with transaction identifier "abcd",
    index 7 and tree tag 1 carries the tree tag and the amount only. *)
Lemma fundTx_input_fields_witness :
  exists r tx' st',
    fundTx (stubWorld [] (Ok "DsChange"%string)) "default" [taggedUtxo]
           (skeleton (pay 100000)) (coin.mkAmount 100000) (coin.mkAmount 10)
           p2pkh size200
    = Returns (r, tx', st') /\
    Tx_TxIn tx'
    = [{| PreviousOutPoint :=
            {| OutPoint_Hash := ZeroHash; OutPoint_Index := 0;
               OutPoint_Tree := 1 |};
          ValueIn := coin.mkAmount 150000 |}].
Proof.
  pose proof (fundTx_input_fields
                (stubWorld [] (Ok "DsChange"%string)) "default" [taggedUtxo]
                (skeleton (pay 100000)) (coin.mkAmount 100000)
                (coin.mkAmount 10) p2pkh size200) as Hfields.
  destruct (fundTx (stubWorld [] (Ok "DsChange"%string)) "default"
                   [taggedUtxo] (skeleton (pay 100000))
                   (coin.mkAmount 100000) (coin.mkAmount 10) p2pkh size200)
    as [[[r tx'] st']|tag]; [|discriminate Hfields].
  exists r, tx', st'. split; [reflexivity|].
  destruct Hfields as (sel & added & Hsel & _ & Hin & Hall).
  assert (Hfit : first_fit
                   (covers size200 (coin.mkAmount 10) (coin.mkAmount 100000)
                           (skeleton (pay 100000)) (coin.mkAmount 0))
                   (filter (eligible "default") [taggedUtxo]) [taggedUtxo])
    by (apply first_fit_single; reflexivity).
  assert (Hsel' : sel = [taggedUtxo]).
  { destruct Hsel as [Hff | [Hno _]].
    - exact (first_fit_unique _ _ _ _ Hff Hfit).
    - destruct (first_fit_not_no_fit _ _ _ Hfit Hno). }
  subst sel. rewrite Hin. cbn [skeleton Tx_TxIn app].
  inversion Hall as [|u i l l' [Hprev Hval] Hrest]; subst.
  inversion Hrest; subst.
  destruct i as [prev val]. cbn in Hprev, Hval. now subst.
Defined.
